(** * react-native-motionify: scroll-direction provider, hook and utilities

    A shallow embedding of [MotionifyProvider.tsx] (provider state, the
    [onScroll] classifier, the idle timer, the two setters), of the
    [useMotionify] hook's configuration effects, of the factories and
    [clamp] of [utils.ts], of one interpolated channel of
    [MotionifyViewWithInterpolation], and of the direction-based
    [MotionifyView] and [MotionifyBottomTab].

    JavaScript numbers are modelled as rationals [Q]: subtraction,
    comparison, [Math.min], [Math.max] and [Math.abs] are the only numeric
    operations of the classifier and they are exact on [Q].  Rounding, NaN
    and the infinities are outside that model.  Equality of numbers is
    [Qeq] (written [==]).  Where rounding decides a statement, as for the
    interpolation formula, the same steps are also given over IEEE 754
    binary64 ([Interpolation64]).

    React and the host are modelled by explicit state passing: one record
    holds the React state, the refs, the Reanimated shared values and the
    host's queue of pending timers.  [runOnJS] calls are applied in program
    order, inside the step that issues them. *)

From Stdlib Require Import QArith Qminmax Qabs Lqa.
From Stdlib Require Import Bool List Lia String PeanoNat.
From Stdlib Require Import Ascii.
From Stdlib Require PrimFloat.
Import ListNotations.
Open Scope Q_scope.

(** ** Numbers *)

(** [x < y] as a boolean, the way [Qlt] is defined. *)
Definition Qltb (x y : Q) : bool :=
  (Qnum x * QDen y <? Qnum y * QDen x)%Z.

(** [x !== y] on numbers. *)
Definition Qneqb (x y : Q) : bool := negb (Qeq_bool x y).

(** Consecutive elements strictly increase. *)
Fixpoint increasing (l : list Q) : Prop :=
  match l with
  | a :: (b :: _) as tl => a < b /\ increasing tl
  | _ => True
  end.

(** Consecutive elements never decrease. *)
Fixpoint nondecreasing (l : list Q) : Prop :=
  match l with
  | a :: (b :: _) as tl => a <= b /\ nondecreasing tl
  | _ => True
  end.

(** Every element is at least its predecessor, the first at least [lo]. *)
Fixpoint ascending (lo : Q) (l : list Q) : Prop :=
  match l with
  | [] => True
  | x :: l' => lo <= x /\ ascending x l'
  end.

(** ** types.ts *)

Inductive Direction : Type := up | down | idle.

Definition Direction_eqb (a b : Direction) : bool :=
  match a, b with
  | up, up | down, down | idle, idle => true
  | _, _ => false
  end.

(** The three numbers [onScroll] reads from [event.nativeEvent]. *)
Record NativeScrollEvent : Type := mkEvent {
  contentOffset_y : Q;
  contentSize_height : Q;
  layoutMeasurement_height : Q
}.

(** [MotionifyConfig]: both fields are optional. *)
Record MotionifyConfig : Type := mkConfig {
  cfg_threshold : option Q;
  cfg_supportIdle : option bool
}.

Inductive Extrapolate : Type := extend | identity | clamp.

(** [outputRange: number[] | string[]]. *)
Inductive OutputRange : Type :=
| Numbers (l : list Q)
| Strings (l : list string).

Record InterpolationConfig : Type := mkInterpolation {
  inputRange : list Q;
  outputRange : OutputRange;
  extrapolate : option Extrapolate
}.

(** What a call does: it returns a value or throws. *)
Inductive ErrorKind : Type :=
| Error (message : string)
| ConfigurationError (message : string).

Inductive Outcome (A : Type) : Type :=
| Returned (a : A)
| Thrown (e : ErrorKind).
Arguments Returned {A} a.
Arguments Thrown {A} e.

(** ** MotionifyProvider.tsx *)

Module Provider.

Definition DEFAULT_THRESHOLD : Q := 8.
Definition DEFAULT_SUPPORT_IDLE : bool := false.
Definition IDLE_TIMEOUT_MS : Q := 200.

(** The host's timers together with [scrollTimeoutRef].  [setTimeout] hands
    out fresh positive handles; a handle is pending from [setTimeout] until
    it fires or is cleared. *)
Record Timers : Type := mkTimers {
  scrollTimeoutRef : option nat;
  pending : list nat;
  nextHandle : nat
}.

Definition clearTimeout (h : nat) (t : Timers) : Timers :=
  mkTimers (scrollTimeoutRef t)
           (filter (fun k => negb (Nat.eqb k h)) (pending t))
           (nextHandle t).

(** [ref.current = setTimeout(...)]. *)
Definition setTimeout (t : Timers) : Timers :=
  mkTimers (Some (nextHandle t))
           (nextHandle t :: pending t)
           (S (nextHandle t)).

Record State : Type := mkState {
  (* Reanimated shared values *)
  scrollY : Q;
  directionShared : Direction;
  (* React state *)
  direction : Direction;
  isScrolling : bool;
  threshold : Q;
  supportIdle : bool;
  (* refs *)
  previousYRef : Q;
  scrollStartYRef : Q;
  isUserScrollingRef : bool;
  thresholdRef : Q;
  supportIdleRef : bool;
  (* scrollTimeoutRef and the host's timer queue *)
  timers : Timers
}.

(** First render of [<MotionifyProvider threshold supportIdle>]. *)
Definition init (initialThreshold : Q) (initialSupportIdle : bool) : State :=
  {| scrollY := 0;
     directionShared := idle;
     direction := idle;
     isScrolling := false;
     threshold := initialThreshold;
     supportIdle := initialSupportIdle;
     previousYRef := 0;
     scrollStartYRef := 0;
     isUserScrollingRef := false;
     thresholdRef := initialThreshold;
     supportIdleRef := initialSupportIdle;
     timers := mkTimers None [] 1 |}.

(** The two "keep refs in sync with state" effects, run after a render. *)
Definition syncRefs (s : State) : State :=
  {| scrollY := scrollY s;
     directionShared := directionShared s;
     direction := direction s;
     isScrolling := isScrolling s;
     threshold := threshold s;
     supportIdle := supportIdle s;
     previousYRef := previousYRef s;
     scrollStartYRef := scrollStartYRef s;
     isUserScrollingRef := isUserScrollingRef s;
     thresholdRef := threshold s;
     supportIdleRef := supportIdle s;
     timers := timers s |}.

Definition resetToIdle (s : State) : State :=
  {| scrollY := scrollY s;
     directionShared := idle;
     direction := idle;
     isScrolling := false;
     threshold := threshold s;
     supportIdle := supportIdle s;
     previousYRef := previousYRef s;
     scrollStartYRef := scrollStartYRef s;
     isUserScrollingRef := false;
     thresholdRef := thresholdRef s;
     supportIdleRef := supportIdleRef s;
     timers := timers s |}.

(** Clears the handle held by the ref, if any, and arms a new timer. *)
Definition resetScrollTimeout (t : Timers) : Timers :=
  setTimeout (match scrollTimeoutRef t with
              | Some h => clearTimeout h t
              | None => t
              end).

(** Values [onScroll] computes on the way, named as in the source. *)
Definition maxScrollY (e : NativeScrollEvent) : Q :=
  Qmax 0 (contentSize_height e - layoutMeasurement_height e).

Definition clampedY (e : NativeScrollEvent) : Q :=
  Qmax 0 (Qmin (contentOffset_y e) (maxScrollY e)).

Definition isDirectionChange (currentTotalDelta deltaY : Q) : bool :=
  (Qltb 0 currentTotalDelta && Qltb deltaY 0)
  || (Qltb currentTotalDelta 0 && Qltb 0 deltaY)
  || (Qeq_bool currentTotalDelta 0 && Qltb 0 (Qabs deltaY)).

(** [newDirection], [None] for [null]. *)
Definition newDirection (totalDelta thr : Q) : option Direction :=
  if Qltb 0 totalDelta then Some down
  else if Qltb totalDelta (- thr) then Some up
  else None.

Definition onScroll (e : NativeScrollEvent) (s : State) : State :=
  let clamped := clampedY e in
  let deltaY := clamped - previousYRef s in
  (* first scroll of a gesture *)
  let first := negb (isUserScrollingRef s) in
  let start1 := if first then clamped else scrollStartYRef s in
  let scrolling := if first then true else isScrolling s in
  let currentTotalDelta := clamped - start1 in
  let start2 :=
    if isDirectionChange currentTotalDelta deltaY then clamped else start1 in
  let timers' :=
    if supportIdleRef s then resetScrollTimeout (timers s) else timers s in
  let totalDelta := clamped - start2 in
  let publish :=
    match newDirection totalDelta (thresholdRef s) with
    | Some d => if Direction_eqb d (directionShared s) then None else Some d
    | None => None
    end in
  {| scrollY := clamped;
     directionShared :=
       match publish with Some d => d | None => directionShared s end;
     direction := match publish with Some d => d | None => direction s end;
     isScrolling := scrolling;
     threshold := threshold s;
     supportIdle := supportIdle s;
     previousYRef := clamped;
     scrollStartYRef := start2;
     isUserScrollingRef := true;
     thresholdRef := thresholdRef s;
     supportIdleRef := supportIdleRef s;
     timers := timers' |}.

Definition setThreshold (newThreshold : Q) (s : State) : State :=
  if Qltb 0 newThreshold then
    {| scrollY := scrollY s;
       directionShared := directionShared s;
       direction := direction s;
       isScrolling := isScrolling s;
       threshold := newThreshold;
       supportIdle := supportIdle s;
       previousYRef := previousYRef s;
       scrollStartYRef := scrollStartYRef s;
       isUserScrollingRef := isUserScrollingRef s;
       thresholdRef := thresholdRef s;
       supportIdleRef := supportIdleRef s;
       timers := timers s |}
  else s.

Definition setSupportIdle (enabled : bool) (s : State) : State :=
  {| scrollY := scrollY s;
     directionShared := directionShared s;
     direction := direction s;
     isScrolling := isScrolling s;
     threshold := threshold s;
     supportIdle := enabled;
     previousYRef := previousYRef s;
     scrollStartYRef := scrollStartYRef s;
     isUserScrollingRef := isUserScrollingRef s;
     thresholdRef := thresholdRef s;
     supportIdleRef := supportIdleRef s;
     timers := timers s |}.

(** The host takes handle [h] out of its queue when the timer fires. *)
Definition expire (h : nat) (s : State) : State :=
  {| scrollY := scrollY s;
     directionShared := directionShared s;
     direction := direction s;
     isScrolling := isScrolling s;
     threshold := threshold s;
     supportIdle := supportIdle s;
     previousYRef := previousYRef s;
     scrollStartYRef := scrollStartYRef s;
     isUserScrollingRef := isUserScrollingRef s;
     thresholdRef := thresholdRef s;
     supportIdleRef := supportIdleRef s;
     timers := mkTimers (scrollTimeoutRef (timers s))
                 (filter (fun k => negb (Nat.eqb k h)) (pending (timers s)))
                 (nextHandle (timers s)) |}.

(** The timer with handle [h] fires: its callback is [resetToIdle].  A
    handle that is not pending never fires. *)
Definition fireTimeout (h : nat) (s : State) : State :=
  if existsb (Nat.eqb h) (pending (timers s))
  then resetToIdle (expire h s)
  else s.

(** The provider's unmount cleanup. *)
Definition unmount (s : State) : State :=
  {| scrollY := scrollY s;
     directionShared := directionShared s;
     direction := direction s;
     isScrolling := isScrolling s;
     threshold := threshold s;
     supportIdle := supportIdle s;
     previousYRef := previousYRef s;
     scrollStartYRef := scrollStartYRef s;
     isUserScrollingRef := isUserScrollingRef s;
     thresholdRef := thresholdRef s;
     supportIdleRef := supportIdleRef s;
     timers := match scrollTimeoutRef (timers s) with
               | Some h => clearTimeout h (timers s)
               | None => timers s
               end |}.

(** What can happen to a mounted provider. *)
Inductive Event : Type :=
| Scroll (e : NativeScrollEvent)
| TimerFires (h : nat)
| Render
| SetThreshold (v : Q)
| SetSupportIdle (b : bool).

Definition step (s : State) (ev : Event) : State :=
  match ev with
  | Scroll e => onScroll e s
  | TimerFires h => fireTimeout h s
  | Render => syncRefs s
  | SetThreshold v => setThreshold v s
  | SetSupportIdle b => setSupportIdle b s
  end.

Definition run (s : State) (evs : list Event) : State :=
  fold_left step evs s.

(** The states after each event of [evs], in order. *)
Fixpoint trace (s : State) (evs : list Event) : list State :=
  match evs with
  | [] => []
  | ev :: evs' => step s ev :: trace (step s ev) evs'
  end.

Definition reachable (s : State) : Prop :=
  exists thr si evs, s = run (init thr si) evs.

End Provider.

(** ** The [useMotionify] hook *)

Module Hook.
Import Provider.

(** [useContext(MotionifyContext)] is [None] outside a provider. *)
Definition useMotionifyContext (context : option State) : Outcome State :=
  match context with
  | Some c => Returned c
  | None =>
      Thrown (Error "useMotionifyContext must be used within a MotionifyProvider. Wrap your component tree with <MotionifyProvider>.")
  end.

(** The destructuring defaults of [useMotionify]. *)
Definition thresholdOf (config : MotionifyConfig) : Q :=
  match cfg_threshold config with
  | Some v => v
  | None => DEFAULT_THRESHOLD
  end.

Definition supportIdleOf (config : MotionifyConfig) : bool :=
  match cfg_supportIdle config with
  | Some b => b
  | None => DEFAULT_SUPPORT_IDLE
  end.

(** The cleanup function an effect returns. *)
Inductive Cleanup : Type :=
| ResetThreshold
| ResetSupportIdle.

Definition runCleanup (s : State) (c : Cleanup) : State :=
  match c with
  | ResetThreshold => setThreshold DEFAULT_THRESHOLD s
  | ResetSupportIdle => setSupportIdle DEFAULT_SUPPORT_IDLE s
  end.

(** "Apply threshold configuration": the provider after the effect and the
    cleanup it registered, if any. *)
Definition thresholdEffect (thr : Q) (s : State) : State * option Cleanup :=
  if Qneqb thr DEFAULT_THRESHOLD
  then (setThreshold thr s, Some ResetThreshold)
  else (s, None).

(** "Apply idle support configuration". *)
Definition supportIdleEffect (si : bool) (s : State)
  : State * option Cleanup :=
  if negb (Bool.eqb si DEFAULT_SUPPORT_IDLE)
  then (setSupportIdle si s, Some ResetSupportIdle)
  else (s, None).

Definition optList {A : Type} (o : option A) : list A :=
  match o with Some a => [a] | None => [] end.

(** Mounting a component that calls [useMotionify config]: both effects
    run, in the order they are declared. *)
Definition mount (config : MotionifyConfig) (s : State)
  : State * list Cleanup :=
  let '(s1, c1) := thresholdEffect (thresholdOf config) s in
  let '(s2, c2) := supportIdleEffect (supportIdleOf config) s1 in
  (s2, optList c1 ++ optList c2).

(** The cleanups a component with [config] holds while it is mounted. *)
Definition cleanups (config : MotionifyConfig) : list Cleanup :=
  optList (if Qneqb (thresholdOf config) DEFAULT_THRESHOLD
           then Some ResetThreshold else None)
  ++ optList (if negb (Bool.eqb (supportIdleOf config) DEFAULT_SUPPORT_IDLE)
              then Some ResetSupportIdle else None).

(** Unmounting the component runs its cleanups against the provider as it
    is at that moment. *)
Definition unmountComponent (config : MotionifyConfig) (s : State)
  : State :=
  fold_left runCleanup (cleanups config) s.

End Hook.

(** ** utils.ts *)

Module Utils.

Definition getExtrapolationMode (e : option Extrapolate) : Extrapolate :=
  match e with
  | Some extend => extend
  | Some identity => identity
  | Some clamp => clamp
  | None => clamp
  end.

(** [createInterpolation]: the body is an object literal, so every call
    returns.  An omitted third argument defaults to ['clamp']. *)
Definition createInterpolation (inputRange : list Q)
    (outputRange : OutputRange) (extrapolate : option Extrapolate)
  : Outcome InterpolationConfig :=
  Returned (mkInterpolation inputRange outputRange
              (Some (match extrapolate with
                     | Some e => e
                     | None => clamp
                     end))).

Definition createTranslationRange (from to : Q) : Q * Q := (from, to).

(** [createFadeInterpolation(scrollDistance, fadeIn = false)]. *)
Definition createFadeInterpolation (scrollDistance : Q)
    (fadeIn : option bool) : InterpolationConfig :=
  mkInterpolation
    [0; scrollDistance / 2; scrollDistance]
    (Numbers (if match fadeIn with Some b => b | None => false end
              then [0; 1 # 2; 1] else [1; 1 # 2; 0]))
    (Some clamp).

(** [createScaleInterpolation(scrollDistance, fromScale = 1, toScale = 0.8)]. *)
Definition createScaleInterpolation (scrollDistance : Q)
    (fromScale toScale : option Q) : InterpolationConfig :=
  mkInterpolation
    [0; scrollDistance]
    (Numbers [match fromScale with Some v => v | None => 1 end;
              match toScale with Some v => v | None => 4 # 5 end])
    (Some clamp).

(** [createParallaxInterpolation(scrollDistance, parallaxFactor = 0.5)]. *)
Definition createParallaxInterpolation (scrollDistance : Q)
    (parallaxFactor : option Q) : InterpolationConfig :=
  mkInterpolation
    [0; scrollDistance]
    (Numbers [0;
              - scrollDistance
              * match parallaxFactor with Some v => v | None => 1 # 2 end])
    (Some extend).

(** [createRotationInterpolation(scrollDistance, rotationDegrees = 360)]. *)
Definition createRotationInterpolation (scrollDistance : Q)
    (rotationDegrees : option Q) : InterpolationConfig :=
  mkInterpolation
    [0; scrollDistance]
    (Numbers [0; match rotationDegrees with Some v => v | None => 360 end])
    (Some clamp).

(** [clamp(value, min, max)], the numeric helper (declared last: inside
    this module the name now shadows the extrapolation mode). *)
Definition clamp (value min max : Q) : Q :=
  Qmin (Qmax value min) max.

End Utils.

(** ** Interpolation *)

Module Interpolation.


(** The boundary segment [interpolate] works on. *)
Record Segment : Type := mkSegment {
  in_lo : Q; in_hi : Q; out_lo : Q; out_hi : Q
}.

(** Modelled from the spec: the bracketing step of [interpolate], which the
    source imports from react-native-reanimated.  The first pair
    [i, i+1] with [input <= inputRange[i+1]] is taken, the last pair when
    there is none; an input below the range lands on the pair [0, 1]. *)
Fixpoint bracket (input : Q) (ins outs : list Q) : option Segment :=
  match ins, outs with
  | i0 :: ins', o0 :: outs' =>
      match ins', outs' with
      | i1 :: ins'', o1 :: _ =>
          match ins'' with
          | [] => Some (mkSegment i0 i1 o0 o1)
          | _ :: _ =>
              if Qle_bool input i1 then Some (mkSegment i0 i1 o0 o1)
              else bracket input ins' outs'
          end
      | _, _ => None
      end
  | _, _ => None
  end.

(** Modelled from the spec: [progress], 0 on a zero-width segment. *)
Definition progress (input : Q) (g : Segment) : Q :=
  if Qeq_bool (in_hi g - in_lo g) 0 then 0
  else (input - in_lo g) / (in_hi g - in_lo g).

(** Modelled from the spec: [rawOutput], in exact arithmetic.  Its
    reading in doubles is [Interpolation64.rawOutput]. *)
Definition rawOutput (input : Q) (g : Segment) : Q :=
  out_lo g + progress input g * (out_hi g - out_lo g).

(** Modelled from the spec: [input] lies outside
    [[inputRange[0], inputRange[last]]]. *)
Definition outside (input : Q) (ins : list Q) : bool :=
  Qltb input (hd 0 ins) || Qltb (last ins 0) input.

(** Modelled from the spec: the numeric steps of [interpolate(input,
    spec)] of section 4.4, which stands for react-native-reanimated's
    [interpolate], in exact arithmetic.  [None] when the ranges have no
    segment at all. *)
Definition interpolateMagnitude (input : Q) (ins outs : list Q)
    (mode : Extrapolate) : option Q :=
  match bracket input ins outs with
  | None => None
  | Some g =>
      let raw := rawOutput input g in
      Some (if outside input ins then
              match mode with
              | clamp =>
                  Qmax (Qmin (out_lo g) (out_hi g))
                       (Qmin raw (Qmax (out_lo g) (out_hi g)))
              | extend => raw
              | identity => input
              end
            else raw)
  end.


Section AngleStrings.

(** Modelled from the spec: how an angle string is read as a numeric
    magnitude and a unit suffix.  The spec does not say how; the reading
    is a parameter. *)
Variable split : string -> option (Q * string).





End AngleStrings.




End Interpolation.

(** ** Interpolation in doubles *)

Module Interpolation64.
Import PrimFloat.

(** The numeric steps of [Interpolation], each operation the IEEE 754
    binary64 one a JavaScript number performs. *)
Record Segment : Type := mkSegment {
  in_lo : float; in_hi : float; out_lo : float; out_hi : float
}.

(** Modelled from the spec: the bracketing step, as
    [Interpolation.bracket]. *)
Fixpoint bracket (input : float) (ins outs : list float) : option Segment :=
  match ins, outs with
  | i0 :: ins', o0 :: outs' =>
      match ins', outs' with
      | i1 :: ins'', o1 :: _ =>
          match ins'' with
          | [] => Some (mkSegment i0 i1 o0 o1)
          | _ :: _ =>
              if leb input i1 then Some (mkSegment i0 i1 o0 o1)
              else bracket input ins' outs'
          end
      | _, _ => None
      end
  | _, _ => None
  end.

(** Modelled from the spec: [progress], 0 on a zero-width segment. *)
Definition progress (input : float) (g : Segment) : float :=
  if eqb (sub (in_hi g) (in_lo g)) zero then zero
  else div (sub input (in_lo g)) (sub (in_hi g) (in_lo g)).

(** Modelled from the spec: [rawOutput], each operation rounded. *)
Definition rawOutput (input : float) (g : Segment) : float :=
  add (out_lo g) (mul (progress input g) (sub (out_hi g) (out_lo g))).

(** Modelled from the spec: [input] lies outside the input range. *)
Definition outside (input : float) (ins : list float) : bool :=
  ltb input (hd zero ins) || ltb (last ins zero) input.

Definition fmin (a b : float) : float := if ltb a b then a else b.
Definition fmax (a b : float) : float := if ltb a b then b else a.

(** Modelled from the spec: the numeric steps of [interpolate(input,
    spec)] of section 4.4, in doubles. *)
Definition interpolateMagnitude (input : float) (ins outs : list float)
    (mode : Extrapolate) : option float :=
  match bracket input ins outs with
  | None => None
  | Some g =>
      let raw := rawOutput input g in
      Some (if outside input ins then
              match mode with
              | clamp =>
                  fmax (fmin (out_lo g) (out_hi g))
                       (fmin raw (fmax (out_lo g) (out_hi g)))
              | extend => raw
              | identity => input
              end
            else raw)
  end.


End Interpolation64.

(** ** Style objects *)

Module Style.

(** A style value: a number, a string, or a [transform] array whose
    entries are one-key objects. *)
Inductive Atom : Type :=
| Num (q : Q)
| Str (t : string).

Inductive Value : Type :=
| Atomic (a : Atom)
| Transform (l : list (string * Atom)).

(** An object as its own properties in insertion order. *)
Definition Object : Type := list (string * Value).

(** [o[k]]. *)
Fixpoint get (k : string) (o : Object) : option Value :=
  match o with
  | [] => None
  | (k', v) :: o' => if String.eqb k k' then Some v else get k o'
  end.

(** [o[k] = v]: an existing key keeps its place, a new one goes last. *)
Fixpoint set (k : string) (v : Value) (o : Object) : Object :=
  match o with
  | [] => [(k, v)]
  | (k', v') :: o' =>
      if String.eqb k k' then (k', v) :: o' else (k', v') :: set k v o'
  end.

(** [Object.assign(target, source)]. *)
Definition assign (target source : Object) : Object :=
  fold_left (fun t kv => set (fst kv) (snd kv) t) source target.

End Style.

(** ** MotionifyView.tsx: the direction-based view *)

Module View.
Import Style.

(** [hideOn: "down" | "up"]. *)
Inductive HideOn : Type := hideOnDown | hideOnUp.

Definition directionOf (h : HideOn) : Direction :=
  match h with hideOnDown => down | hideOnUp => up end.

Record TranslateRange : Type := mkRange { range_from : Q; range_to : Q }.

(** The props of [MotionifyView] its style worklet reads, after defaults.
    [animationDuration] and [easing] shape the course of [withTiming] over
    time, not the value it settles on. *)
Record Props : Type := mkProps {
  animatedY : bool;
  fadeScale : bool;
  customEffects : option (Direction -> Object);
  hideOn : HideOn;
  translateRange : TranslateRange
}.

(** [MotionifyView]'s defaults. *)
Definition defaults : Props :=
  mkProps false false None hideOnDown (mkRange 0 160).

(** The style [useAnimatedStyle] returns, each [withTiming(v, config)] read
    as the value [v] it animates to. *)
Definition animatedStyle (p : Props) (directionShared : Direction) : Object :=
  let shouldHide := Direction_eqb directionShared (directionOf (hideOn p)) in
  let animatedStyles0 : Object := [] in
  let transform0 : list (string * Atom) := [] in
  (* TranslateY animation *)
  let transform1 :=
    if animatedY p then
      transform0 ++
      [("translateY"%string,
        Num (if shouldHide then range_to (translateRange p)
             else range_from (translateRange p)))]
    else transform0 in
  (* Fade and scale animation *)
  let animatedStyles1 :=
    if fadeScale p then
      set "opacity" (Atomic (Num (if shouldHide then 0 else 1)))
        animatedStyles0
    else animatedStyles0 in
  let transform2 :=
    if fadeScale p then
      transform1 ++
      [("scale"%string, Num (if shouldHide then 9 # 10 else 1))]
    else transform1 in
  (* Apply transform if we have any *)
  let animatedStyles2 :=
    if Nat.ltb 0 (List.length transform2) then
      set "transform" (Transform transform2) animatedStyles1
    else animatedStyles1 in
  (* Apply custom effects *)
  match customEffects p with
  | Some f => assign animatedStyles2 (f directionShared)
  | None => animatedStyles2
  end.

End View.

(** ** MotionifyBottomTab.tsx: the direction-based tab bar *)

Module BottomTab.
Import View.

(** The props [MotionifyBottomTab] reads for its position, after defaults
    ([exclude = []]); [currentId] is [None] when not passed. *)
Record Props : Type := mkProps {
  hideOn : HideOn;
  translateRange : TranslateRange;
  exclude : list string;
  currentId : option string
}.

Definition defaults : Props :=
  mkProps hideOnDown (mkRange 0 0) [] None.

(** [a !== b] on [string | undefined]. *)
Definition idNeqb (a b : option string) : bool :=
  match a, b with
  | Some x, Some y => negb (String.eqb x y)
  | None, None => false
  | _, _ => true
  end.

(** [prevIdRef.current !== currentId], at render time. *)
Definition idChanged (prevIdRef : option string) (p : Props) : bool :=
  idNeqb prevIdRef (currentId p).

Definition isExcluded (p : Props) : bool :=
  Nat.ltb 0 (List.length (exclude p))
  && match currentId p with
     | Some id => existsb (String.eqb id) (exclude p)
     | None => false
     end.

(** The value of the [translateY] derived value, each [withTiming(v,
    config)] read as the value [v] it animates to. *)
Definition translateY (p : Props) (prevIdRef : option string)
    (directionShared : Direction) : Q :=
  if isExcluded p then range_from (translateRange p)
  else if idChanged prevIdRef p then range_from (translateRange p)
  else if Direction_eqb directionShared (directionOf (hideOn p))
  then range_to (translateRange p)
  else if negb (Direction_eqb directionShared (directionOf (hideOn p)))
  then range_from (translateRange p)
  else range_from (translateRange p).

(** One render: the position is computed against the ref as the previous
    commit left it, then the effect stores [currentId] in the ref.  The
    ref starts as the first render's [currentId]. *)
Definition render (p : Props) (prevIdRef : option string)
    (directionShared : Direction) : Q * option string :=
  (translateY p prevIdRef directionShared, currentId p).

Definition firstRender (p : Props) (directionShared : Direction)
  : Q * option string :=
  render p (currentId p) directionShared.

End BottomTab.

(** ** Predicates and runs the statements below use *)

Section Statements.
Import Provider.

(** A sample at offset [y] under fixed content and viewport heights. *)
Definition sample (ch vh y : Q) : Event := Scroll (mkEvent y ch vh).

(** The total delta each state of a trace was classified with. *)
Definition totalDeltas (tr : list State) : list Q :=
  map (fun s => Qred (scrollY s - scrollStartYRef s)) tr.

(** What a run of samples with ascending clamped offsets preserves. *)
Definition Mono (s : State) : Prop :=
  (isUserScrollingRef s = true -> scrollStartYRef s <= previousYRef s) /\
  0 <= thresholdRef s /\
  directionShared s <> up.

(** The refs and the two copies of the direction agree, and a provider that
    is not scrolling is idle. *)
Definition Settled (s : State) : Prop :=
  isUserScrollingRef s = isScrolling s /\
  direction s = directionShared s /\
  (isScrolling s = false -> directionShared s = idle).

(** A provider with idle support, two samples, then the idle timer. *)
Definition idledOut : State :=
  run (init 8 true)
    [Scroll (mkEvent 0 10000 800); Scroll (mkEvent 50 10000 800); TimerFires 2].

(** Two states agree on everything but the React-state [threshold]. *)
Definition sameButThreshold (s t : State) : Prop :=
  scrollY t = scrollY s /\
  directionShared t = directionShared s /\
  direction t = direction s /\
  isScrolling t = isScrolling s /\
  supportIdle t = supportIdle s /\
  previousYRef t = previousYRef s /\
  scrollStartYRef t = scrollStartYRef s /\
  isUserScrollingRef t = isUserScrollingRef s /\
  thresholdRef t = thresholdRef s /\
  supportIdleRef t = supportIdleRef s /\
  timers t = timers s.

(** A provider with idle support in the middle of a downward gesture: the
    idle timer armed by the last sample has handle 2. *)
Definition midGesture : State :=
  run (init 8 true)
    [Scroll (mkEvent 0 10000 800); Scroll (mkEvent 50 10000 800)].

(** The length of either kind of output range. *)
Definition outputLength (o : OutputRange) : nat :=
  match o with
  | Numbers l => List.length l
  | Strings l => List.length l
  end.

(** What the spec calls an invalid [InterpolationSpec]. *)
Definition invalidSpec (ins : list Q) (outs : OutputRange) : Prop :=
  outputLength outs <> List.length ins \/
  (List.length ins < 2)%nat \/
  ~ increasing ins.

(** No event of the run switches idle support on. *)
Definition neverEnablesIdle (evs : list Event) : Prop :=
  Forall (fun ev => ev <> SetSupportIdle true) evs.

(** Every sample of the run has content no taller than the viewport. *)
Definition allFit (evs : list Event) : Prop :=
  Forall (fun ev => match ev with
                    | Scroll e =>
                        contentSize_height e <= layoutMeasurement_height e
                    | _ => True
                    end) evs.

(** Idle support off in state and ref, and nothing in the timer queue. *)
Definition NoIdle (s : State) : Prop :=
  supportIdle s = false /\ supportIdleRef s = false /\
  pending (timers s) = [].

(** The published offset and the previous-offset ref move together. *)
Definition Tracked (s : State) : Prop :=
  scrollY s = previousYRef s /\ 0 <= scrollY s.

(** The timer queue is empty or holds exactly the handle in the ref. *)
Definition OneTimer (t : Timers) : Prop :=
  pending t = [] \/
  exists h, pending t = [h] /\ scrollTimeoutRef t = Some h.

(** Handles are positive and below the next one to hand out. *)
Definition FreshHandles (t : Timers) : Prop :=
  (1 <= nextHandle t)%nat /\
  (forall h, scrollTimeoutRef t = Some h -> (1 <= h < nextHandle t)%nat).

(** A gesture whose anchor is at or above the previous offset. *)
Definition Desc (s : State) : Prop :=
  isUserScrollingRef s = true /\
  previousYRef s <= scrollStartYRef s /\
  0 <= thresholdRef s.

(** A gesture whose anchor is at or below the previous offset. *)
Definition Asc (s : State) : Prop :=
  isUserScrollingRef s = true /\
  scrollStartYRef s <= previousYRef s /\
  0 <= thresholdRef s.

(** Every element is at most its predecessor, the first at most [hi]. *)
Fixpoint descending (hi : Q) (l : list Q) : Prop :=
  match l with
  | [] => True
  | x :: l' => x <= hi /\ descending x l'
  end.

(** What a provider keeps while its content fits the viewport. *)
Definition Fit (s : State) : Prop :=
  previousYRef s == 0 /\ scrollY s == 0 /\
  (isUserScrollingRef s = true -> scrollStartYRef s == 0) /\
  0 <= thresholdRef s /\ 0 <= threshold s /\
  directionShared s = idle /\ direction s = idle.

End Statements.

(** * Properties *)

(** ** Comparisons *)

Lemma Qltb_spec (x y : Q) : reflect (x < y) (Qltb x y).
Proof. unfold Qltb, Qlt. apply Z.ltb_spec0. Qed.

Lemma Qeq_bool_spec (x y : Q) : reflect (x == y) (Qeq_bool x y).
Proof.
  destruct (Qeq_bool x y) eqn:E; constructor.
  - now apply Qeq_bool_iff.
  - intro H. apply Qeq_bool_iff in H. congruence.
Qed.

Lemma Direction_eqb_spec (a b : Direction) : reflect (a = b) (Direction_eqb a b).
Proof. destruct a, b; constructor; congruence. Qed.

(** Case analysis on every number comparison in the goal. *)
Ltac cmp :=
  repeat match goal with
    | |- context [Qltb ?a ?b] => destruct (Qltb_spec a b)
    | |- context [Qeq_bool ?a ?b] => destruct (Qeq_bool_spec a b)
    end.

(** ** The clamp of [onScroll] *)

Section Clamp.
Import Provider.

Lemma maxScrollY_nonneg e : 0 <= maxScrollY e.
Proof. unfold maxScrollY. apply Q.le_max_l. Qed.

Lemma clampedY_bounds e : 0 <= clampedY e /\ clampedY e <= maxScrollY e.
Proof.
  pose proof (maxScrollY_nonneg e) as Hm.
  unfold clampedY. split.
  - apply Q.le_max_l.
  - apply Q.max_lub; [exact Hm | apply Q.le_min_r].
Qed.

Lemma scrollY_onScroll e s : scrollY (onScroll e s) = clampedY e.
Proof. reflexivity. Qed.

(** An offset inside the bounds passes through the clamp untouched. *)
Lemma clampedY_inside y ch vh :
  0 < y -> y <= ch - vh -> clampedY (mkEvent y ch vh) = y.
Proof.
  intros Hy Hm. unfold clampedY, maxScrollY; cbn [contentOffset_y
    contentSize_height layoutMeasurement_height].
  unfold Qmax, Qmin, GenericMinMax.gmax, GenericMinMax.gmin.
  destruct (0 ?= ch - vh) eqn:E0.
  - apply Qeq_alt in E0. lra.
  - destruct (y ?= ch - vh) eqn:E1.
    + destruct (0 ?= y) eqn:E2; [apply Qeq_alt in E2; lra|reflexivity|].
      apply Qgt_alt in E2. lra.
    + destruct (0 ?= y) eqn:E2; [apply Qeq_alt in E2; lra|reflexivity|].
      apply Qgt_alt in E2. lra.
    + apply Qgt_alt in E1. lra.
  - apply Qgt_alt in E0. lra.
Qed.

Lemma clampedY_zero ch vh : clampedY (mkEvent 0 ch vh) = 0.
Proof.
  pose proof (maxScrollY_nonneg (mkEvent 0 ch vh)) as Hm.
  unfold clampedY; cbn [contentOffset_y].
  unfold Qmin, GenericMinMax.gmin.
  destruct (0 ?= maxScrollY (mkEvent 0 ch vh)) eqn:E0; try reflexivity.
  apply Qgt_alt in E0. lra.
Qed.

End Clamp.

(** ** The classification rule *)

Section Classifier.
Import Provider.

Lemma newDirection_cases td thr :
  (0 < td -> newDirection td thr = Some down) /\
  (~ 0 < td -> td < - thr -> newDirection td thr = Some up) /\
  (~ 0 < td -> ~ td < - thr -> newDirection td thr = None).
Proof.
  unfold newDirection. repeat split; intros; cmp; tauto.
Qed.

(** The shared direction after a sample, in terms of [newDirection] at the
    total delta measured from the anchor the sample leaves behind. *)
Lemma directionShared_onScroll e s :
  directionShared (onScroll e s) =
  match newDirection (clampedY e - scrollStartYRef (onScroll e s))
                     (thresholdRef s) with
  | Some d => d
  | None => directionShared s
  end.
Proof.
  unfold onScroll; cbn [directionShared scrollStartYRef].
  destruct (newDirection _ _) as [d|]; [|reflexivity].
  destruct (Direction_eqb_spec d (directionShared s)); congruence.
Qed.

(** The React-state direction follows the shared one. *)
Lemma direction_onScroll e s :
  direction s = directionShared s ->
  direction (onScroll e s) = directionShared (onScroll e s).
Proof.
  intros H. unfold onScroll; cbn [directionShared direction].
  destruct (newDirection _ _) as [d|]; [|exact H].
  destruct (Direction_eqb_spec d (directionShared s)); [exact H|reflexivity].
Qed.

(** [onScroll] looks at the event through [clampedY] only. *)
Lemma onScroll_ext e e' s :
  clampedY e = clampedY e' -> onScroll e s = onScroll e' s.
Proof. intros H. unfold onScroll. rewrite H. reflexivity. Qed.

Lemma onScroll_inside y ch vh s :
  0 < y -> y <= ch - vh ->
  onScroll (mkEvent y ch vh) s = onScroll (mkEvent y y 0) s.
Proof.
  intros Hy Hm. apply onScroll_ext.
  rewrite !clampedY_inside; [reflexivity|lra..].
Qed.

Lemma onScroll_top ch vh s :
  onScroll (mkEvent 0 ch vh) s = onScroll (mkEvent 0 0 0) s.
Proof. apply onScroll_ext. now rewrite !clampedY_zero. Qed.

(** C1.  For every sample, with [totalDelta] the clamped offset minus the
    gesture-start anchor as the sample leaves it (after the first-sample
    initialisation and the reversal reset): a positive [totalDelta] gives
    [down]; otherwise a [totalDelta] below [-threshold] gives [up];
    otherwise the direction keeps its previous value.  For a threshold that
    is not negative the two tests exclude each other, so [totalDelta <
    -threshold] alone gives [up].  The direction turns [up] only when
    [totalDelta < -threshold]. *)
Theorem onScroll_classification e s :
  let s' := onScroll e s in
  let totalDelta := clampedY e - scrollStartYRef s' in
  let thr := thresholdRef s in
  (0 < totalDelta -> directionShared s' = down) /\
  (~ 0 < totalDelta -> totalDelta < - thr -> directionShared s' = up) /\
  (~ 0 < totalDelta -> ~ totalDelta < - thr ->
   directionShared s' = directionShared s) /\
  (0 <= thr -> totalDelta < - thr -> directionShared s' = up) /\
  (directionShared s' = up -> directionShared s <> up -> totalDelta < - thr).
Proof.
  intros s' totalDelta thr.
  pose proof (directionShared_onScroll e s) as H.
  fold s' totalDelta thr in H.
  destruct (newDirection_cases totalDelta thr) as (Hd & Hu & Hn).
  repeat split.
  - intros Hp. now rewrite H, (Hd Hp).
  - intros Hp Hlt. now rewrite H, (Hu Hp Hlt).
  - intros Hp Hlt. now rewrite H, (Hn Hp Hlt).
  - intros Hthr Hlt. rewrite H, Hu; [reflexivity|lra|exact Hlt].
  - intros Hup Hprev.
    destruct (Qlt_le_dec totalDelta (- thr)) as [Hlt|Hge]; [exact Hlt|].
    exfalso. destruct (Qlt_le_dec 0 totalDelta) as [Hp|Hnp].
    + rewrite H, (Hd Hp) in Hup. discriminate.
    + rewrite H, Hn in Hup; [contradiction|lra|lra].
Qed.

(** A sample 50 px below a fresh anchor reports [down] at once. *)
Lemma onScroll_classification_witness :
  directionShared
    (onScroll (mkEvent 50 10000 800)
       (onScroll (mkEvent 0 10000 800) (init 8 false))) = down.
Proof.
  apply (proj1 (onScroll_classification (mkEvent 50 10000 800)
                  (onScroll (mkEvent 0 10000 800) (init 8 false)))).
  vm_compute. reflexivity.
Defined.

(** ** The reversal trace *)

(** C2, as the spec words it, fails: after the sample at 90 the anchor is
    90, not 100, and the direction is still [down]. *)
Lemma reversal_trace_counterexample :
  let s4 := run (init 8 false) (map (sample 10000 800) [0; 50; 100; 90]) in
  ~ (scrollStartYRef s4 == 100 /\ directionShared s4 = up).
Proof.
  intros s4 [_ H]. vm_compute in H. discriminate H.
Qed.

(** C2, amended.  With threshold 8 and bounds that clamp nothing, the
    offsets 0, 50, 100, 90, 80 give [idle] at 0 and [down] at 50 and 100;
    at 90 the reversal resets the anchor to 90, the sample itself, so
    [totalDelta] is 0 and [down] is held; at 80 [totalDelta] is -10, below
    -8, and the direction is [up]. *)
Theorem reversal_trace ch vh si :
  100 <= ch - vh ->
  let tr := trace (init 8 si) (map (sample ch vh) [0; 50; 100; 90; 80]) in
  map directionShared tr = [idle; down; down; down; up] /\
  map scrollStartYRef tr = [0; 0; 0; 90; 90] /\
  totalDeltas tr = [0; 50; 100; 0; -10].
Proof.
  intros Hb tr. subst tr. unfold sample. cbn [map trace step].
  rewrite onScroll_top.
  rewrite !(onScroll_inside _ ch vh) by lra.
  vm_compute. repeat split.
Qed.

Lemma reversal_trace_witness :
  map directionShared
    (trace (init 8 false) (map (sample 10000 800) [0; 50; 100; 90; 80]))
  = [idle; down; down; down; up].
Proof.
  apply (reversal_trace 10000 800 false). vm_compute. discriminate.
Defined.

End Classifier.

(** ** Monotone scrolling *)

Section Monotone.
Import Provider.

Lemma Mono_init thr si : 0 <= thr -> Mono (init thr si).
Proof.
  intros H. unfold Mono; cbn. repeat split; [discriminate|exact H|discriminate].
Qed.

Lemma clampedY_mono e1 e2 :
  contentOffset_y e1 <= contentOffset_y e2 ->
  maxScrollY e1 <= maxScrollY e2 ->
  clampedY e1 <= clampedY e2.
Proof.
  intros Hy Hm. unfold clampedY.
  apply Q.max_le_compat_l. now apply Q.min_le_compat.
Qed.

(** The anchor a sample leaves behind is not above the sample. *)
Lemma anchor_le_clamped e s :
  Mono s -> previousYRef s <= clampedY e ->
  scrollStartYRef (onScroll e s) <= clampedY e.
Proof.
  intros (Hs & _ & _) Hp. unfold onScroll; cbn [scrollStartYRef].
  destruct (isUserScrollingRef s); cbn [negb].
  - destruct (isDirectionChange _ _); [apply Qle_refl|].
    specialize (Hs eq_refl). lra.
  - destruct (isDirectionChange _ _); apply Qle_refl.
Qed.

Lemma newDirection_nonneg td thr :
  0 <= td -> 0 <= thr ->
  newDirection td thr = Some down \/ newDirection td thr = None.
Proof.
  intros Htd Hthr. destruct (newDirection_cases td thr) as (Hd & _ & Hn).
  destruct (Qlt_le_dec 0 td) as [Hp|Hnp].
  - left. now apply Hd.
  - right. apply Hn; lra.
Qed.

Lemma Mono_onScroll e s :
  Mono s -> previousYRef s <= clampedY e ->
  Mono (onScroll e s) /\
  (directionShared s = down -> directionShared (onScroll e s) = down).
Proof.
  intros HM Hp.
  pose proof (anchor_le_clamped e s HM Hp) as Ha.
  destruct HM as (Hs & Hthr & Hup).
  assert (Hnd := newDirection_nonneg
                   (clampedY e - scrollStartYRef (onScroll e s))
                   (thresholdRef s)).
  pose proof (directionShared_onScroll e s) as Hdir.
  split; [split; [|split]|].
  - intros _. exact Ha.
  - exact Hthr.
  - rewrite Hdir. destruct Hnd as [E|E]; [lra|exact Hthr| |]; rewrite E;
      [discriminate|exact Hup].
  - intros Hdown. rewrite Hdir.
    destruct Hnd as [E|E]; [lra|exact Hthr| |]; now rewrite E.
Qed.

Lemma ascending_never_up es : forall s,
  Mono s -> ascending (previousYRef s) (map clampedY es) ->
  Forall (fun s' => directionShared s' <> up) (trace s (map Scroll es)).
Proof.
  induction es as [|e es IH]; intros s HM Hasc; cbn; [constructor|].
  destruct Hasc as [Hp Hrest].
  destruct (Mono_onScroll e s HM Hp) as [HM' _].
  constructor; [apply HM'|].
  apply IH; [exact HM'|exact Hrest].
Qed.

Lemma ascending_stays_down es : forall s,
  Mono s -> directionShared s = down ->
  ascending (previousYRef s) (map clampedY es) ->
  Forall (fun s' => directionShared s' = down) (trace s (map Scroll es)).
Proof.
  induction es as [|e es IH]; intros s HM Hd Hasc; cbn; [constructor|].
  destruct Hasc as [Hp Hrest].
  destruct (Mono_onScroll e s HM Hp) as [HM' Hd'].
  constructor; [now apply Hd'|].
  apply IH; [exact HM'|now apply Hd'|exact Hrest].
Qed.

(** After a non-empty prefix whose last sample had a positive total delta,
    the direction is [down] and stays [down]. *)
Lemma positive_then_down pre : forall s post,
  Mono s -> ascending (previousYRef s) (map clampedY (pre ++ post)) ->
  pre <> [] ->
  let s' := run s (map Scroll pre) in
  0 < scrollY s' - scrollStartYRef s' ->
  Forall (fun t => directionShared t = down) (s' :: trace s' (map Scroll post)).
Proof.
  induction pre as [|e pre IH]; intros s post HM Hasc Hne; [congruence|].
  cbn in Hasc. destruct Hasc as [Hp Hrest].
  destruct (Mono_onScroll e s HM Hp) as [HM' _].
  destruct pre as [|e' pre'].
  - cbn. intros Hpos.
    assert (Hd : directionShared (onScroll e s) = down).
    { rewrite directionShared_onScroll.
      destruct (newDirection_cases
                  (clampedY e - scrollStartYRef (onScroll e s))
                  (thresholdRef s)) as (Hdn & _).
      now rewrite Hdn. }
    constructor; [exact Hd|].
    now apply ascending_stays_down.
  - intros s'. apply (IH (onScroll e s) post HM' Hrest). discriminate.
Qed.

(** C3, as the spec words it, fails.  Under the default threshold a
    content that shrinks between two samples pulls the clamped offset back
    although the raw offset grows; and a provider created with a negative
    threshold reports [up] on its first sample. *)
Lemma increasing_offsets_counterexample :
  (let es := [mkEvent 100 1000 0; mkEvent 200 50 0] in
   increasing (map contentOffset_y es) /\
   directionShared (run (init 8 false) (map Scroll es)) = up) /\
  (let es := [mkEvent 10 10000 800] in
   increasing (map contentOffset_y es) /\
   directionShared (run (init (-5) false) (map Scroll es)) = up).
Proof.
  split; cbn zeta; (split; [cbn; repeat split|vm_compute; reflexivity]).
Qed.

Lemma nondecreasing_ascending l : forall lo,
  match l with [] => True | x :: _ => lo <= x end ->
  nondecreasing l -> ascending lo l.
Proof.
  induction l as [|x l IH]; intros lo Hlo Hnd; cbn; [exact I|].
  split; [exact Hlo|].
  apply IH; destruct l as [|y l]; try exact I; cbn in Hnd; tauto.
Qed.

(** C3, amended.  From a fresh provider with a threshold that is not
    negative, for samples whose offsets strictly increase and whose
    clamped offsets never decrease from one sample to the next: no state
    of the run has direction [up]; and once a sample has a positive total
    delta the direction is [down] there and after every later sample. *)
Theorem increasing_offsets_never_up thr si es :
  0 <= thr ->
  increasing (map contentOffset_y es) ->
  nondecreasing (map clampedY es) ->
  Forall (fun s => directionShared s <> up)
         (trace (init thr si) (map Scroll es)) /\
  (forall pre post, es = pre ++ post ->
     let s := run (init thr si) (map Scroll pre) in
     0 < scrollY s - scrollStartYRef s ->
     Forall (fun t => directionShared t = down)
            (s :: trace s (map Scroll post))).
Proof.
  intros Hthr _ Hnd.
  assert (Hasc : ascending 0 (map clampedY es)).
  { apply nondecreasing_ascending; [|exact Hnd].
    destruct es; [exact I|apply clampedY_bounds]. }
  split.
  - apply ascending_never_up; [now apply Mono_init|exact Hasc].
  - intros pre post -> s Hpos.
    destruct pre as [|e pre].
    + cbn in s. subst s. cbn in Hpos. lra.
    + apply positive_then_down; [now apply Mono_init|exact Hasc|discriminate|].
      exact Hpos.
Qed.

(** A content that shrinks from 1000 to 900 while the offset grows from
    100 to 200 clamps nothing: the direction goes [idle], [down]. *)
Lemma increasing_offsets_never_up_witness :
  Forall (fun s => directionShared s <> up)
    (trace (init 8 false)
       (map Scroll [mkEvent 100 1000 0; mkEvent 200 900 0])).
Proof.
  apply (increasing_offsets_never_up 8 false
           [mkEvent 100 1000 0; mkEvent 200 900 0]).
  - vm_compute. discriminate.
  - cbn. repeat split.
  - vm_compute. repeat split; discriminate.
Defined.

(** Bounds that never shrink are one way to keep the clamped offsets from
    decreasing. *)
Lemma bounds_keep_clamped_nondecreasing es :
  increasing (map contentOffset_y es) ->
  nondecreasing (map maxScrollY es) ->
  nondecreasing (map clampedY es).
Proof.
  induction es as [|e es IH]; intros Hinc Hnd; [exact I|].
  destruct es as [|e' es]; [exact I|].
  cbn in Hinc, Hnd |- *. split.
  - apply clampedY_mono; [apply Qlt_le_weak|]; tauto.
  - apply IH; tauto.
Qed.

End Monotone.

(** ** The published offset *)

Section Offset.
Import Provider.

(** C4.  After any sample the published [scrollY] lies between 0 and
    [max(0, contentHeight - viewportHeight)], whatever the raw offset; when
    the content is not taller than the viewport it is 0. *)
Theorem scrollY_clamped e s :
  (0 <= scrollY (onScroll e s) /\
   scrollY (onScroll e s)
     <= Qmax 0 (contentSize_height e - layoutMeasurement_height e)) /\
  (contentSize_height e <= layoutMeasurement_height e ->
   scrollY (onScroll e s) == 0).
Proof.
  rewrite scrollY_onScroll.
  pose proof (clampedY_bounds e) as [Hlo Hhi].
  split; [split; [exact Hlo|exact Hhi]|].
  intros Hfit.
  assert (Hm : maxScrollY e == 0).
  { unfold maxScrollY. rewrite Q.max_l; [reflexivity|lra]. }
  apply Qle_antisym; [|exact Hlo].
  rewrite <- Hm. exact Hhi.
Qed.

(** A raw offset of 500 on content that fits the viewport publishes 0; a
    negative raw offset (overscroll) publishes 0 as well. *)
Lemma scrollY_clamped_witness :
  scrollY (onScroll (mkEvent 500 300 800) (init 8 false)) == 0 /\
  0 <= scrollY (onScroll (mkEvent (-40) 10000 800) (init 8 false)).
Proof.
  split.
  - apply (proj2 (scrollY_clamped (mkEvent 500 300 800) (init 8 false))).
    vm_compute. discriminate.
  - apply (proj1 (scrollY_clamped (mkEvent (-40) 10000 800) (init 8 false))).
Defined.

End Offset.

(** ** Reachable states *)

Section Reachable.
Import Provider.

Lemma Settled_init thr si : Settled (init thr si).
Proof. unfold Settled; cbn. auto. Qed.

(** A sample leaves [isScrolling] set. *)
Lemma isScrolling_onScroll e s :
  isUserScrollingRef s = isScrolling s -> isScrolling (onScroll e s) = true.
Proof.
  intros H. unfold onScroll; cbn [isScrolling].
  rewrite H. now destruct (isScrolling s).
Qed.

(** The idle transition sets the direction and the flag together. *)
Lemma resetToIdle_idle s :
  direction (resetToIdle s) = idle /\
  directionShared (resetToIdle s) = idle /\
  isScrolling (resetToIdle s) = false /\
  isUserScrollingRef (resetToIdle s) = false.
Proof. cbn. auto. Qed.

Lemma Settled_step s ev : Settled s -> Settled (step s ev).
Proof.
  intros (Hr & Hd & Hi). destruct ev as [e|h| |v|b]; cbn [step].
  - pose proof (isScrolling_onScroll e s Hr) as Hs.
    repeat split.
    + rewrite Hs. reflexivity.
    + now apply direction_onScroll.
    + rewrite Hs. discriminate.
  - unfold fireTimeout. destruct (existsb _ _).
    + unfold Settled; cbn. auto.
    + unfold Settled; auto.
  - unfold Settled; cbn. auto.
  - unfold setThreshold. destruct (Qltb 0 v); unfold Settled; cbn; auto.
  - unfold Settled; cbn. auto.
Qed.

Lemma Settled_run evs : forall s, Settled s -> Settled (run s evs).
Proof.
  induction evs as [|ev evs IH]; intros s H; cbn; [exact H|].
  apply IH. now apply Settled_step.
Qed.

Lemma Settled_reachable s : reachable s -> Settled s.
Proof.
  intros (thr & si & evs & ->). apply Settled_run, Settled_init.
Qed.

(** C5.  In every reachable state with [supportIdle] on, a provider that
    is not scrolling has direction [idle], in the React state and in the
    shared value alike. *)
Theorem not_scrolling_is_idle s :
  reachable s ->
  supportIdle s = true ->
  isScrolling s = false ->
  direction s = idle /\ directionShared s = idle.
Proof.
  intros Hr _ Hs. destruct (Settled_reachable s Hr) as (_ & Hd & Hi).
  rewrite Hd. split; now apply Hi.
Qed.

Lemma not_scrolling_is_idle_witness :
  direction idledOut = idle /\ directionShared idledOut = idle.
Proof.
  apply (not_scrolling_is_idle idledOut).
  - exists 8, true,
      [Scroll (mkEvent 0 10000 800); Scroll (mkEvent 50 10000 800); TimerFires 2].
    reflexivity.
  - vm_compute. reflexivity.
  - vm_compute. reflexivity.
Defined.

End Reachable.

(** ** The setters *)

Section Setters.
Import Provider.

(** C7.  [setThreshold v] stores [v] when [v > 0] and touches nothing
    else; when [v <= 0] the provider is left exactly as it was.  The call
    returns in both cases. *)
Theorem setThreshold_guard v s :
  (0 < v ->
   threshold (setThreshold v s) = v /\ sameButThreshold s (setThreshold v s)) /\
  (v <= 0 -> setThreshold v s = s).
Proof.
  unfold setThreshold. split; intros H; destruct (Qltb_spec 0 v).
  - cbn. unfold sameButThreshold; cbn. repeat split.
  - contradiction.
  - lra.
  - reflexivity.
Qed.

Lemma setThreshold_guard_witness :
  threshold (setThreshold 15 (init 8 false)) = 15 /\
  setThreshold (-3) (init 8 false) = init 8 false /\
  setThreshold 0 (init 8 false) = init 8 false.
Proof.
  split; [|split].
  - apply (proj1 (setThreshold_guard 15 (init 8 false))). reflexivity.
  - apply (proj2 (setThreshold_guard (-3) (init 8 false))).
    vm_compute. discriminate.
  - apply (proj2 (setThreshold_guard 0 (init 8 false))).
    vm_compute. discriminate.
Defined.

(** [setSupportIdle] writes the flag and nothing else: in particular the
    timer queue and [scrollTimeoutRef] are as before. *)
Lemma setSupportIdle_only_flag b s :
  supportIdle (setSupportIdle b s) = b /\
  timers (setSupportIdle b s) = timers s /\
  directionShared (setSupportIdle b s) = directionShared s /\
  direction (setSupportIdle b s) = direction s /\
  isScrolling (setSupportIdle b s) = isScrolling s /\
  scrollY (setSupportIdle b s) = scrollY s /\
  threshold (setSupportIdle b s) = threshold s.
Proof. cbn. repeat split. Qed.

(** C6 on the code.  Disabling idle support in the middle of a gesture
    leaves the armed timer in the host's queue; the call changes neither
    the direction nor [isScrolling]; when the timer then fires, with idle
    support off in state and ref, it still resets the provider to [idle]. *)
Theorem setSupportIdle_leaves_timer_armed :
  let s := syncRefs (setSupportIdle false midGesture) in
  pending (timers midGesture) = [2%nat] /\
  pending (timers s) = [2%nat] /\
  directionShared s = down /\ direction s = down /\ isScrolling s = true /\
  supportIdle s = false /\ supportIdleRef s = false /\
  directionShared (fireTimeout 2 s) = idle /\
  direction (fireTimeout 2 s) = idle /\
  isScrolling (fireTimeout 2 s) = false.
Proof. vm_compute. repeat split. Qed.

(** The sibling paths do cancel: the next sample and the provider's
    unmount both take the armed timer out of the queue. *)
Lemma armed_timer_cancelled_elsewhere :
  pending (timers (Provider.unmount midGesture)) = [] /\
  pending (timers (onScroll (mkEvent 60 10000 800) midGesture)) = [3%nat].
Proof. vm_compute. split; reflexivity. Qed.

End Setters.

(** ** [useMotionify] on unmount *)

Section HookCleanup.
Import Provider Hook.

(** The cleanups held by a mounted component are those its effects
    registered, whatever the provider looked like at mount time. *)
Lemma mount_cleanups config s : snd (mount config s) = cleanups config.
Proof.
  unfold mount, cleanups, thresholdEffect, supportIdleEffect.
  destruct (Qneqb _ _), (negb _); reflexivity.
Qed.

(** C10, as worded, fails: a component configured with a threshold only
    does not touch [supportIdle] when it unmounts.  Here component A uses
    [{threshold: 15}], component B [{supportIdle: true}]; A unmounts while
    B stays. *)
Lemma unmount_counterexample :
  let A := mkConfig (Some 15) None in
  let B := mkConfig None (Some true) in
  let s := fst (mount B (fst (mount A (init 8 false)))) in
  Qneqb (thresholdOf A) DEFAULT_THRESHOLD = true /\
  ~ (threshold (Hook.unmountComponent A s) = DEFAULT_THRESHOLD /\
     supportIdle (Hook.unmountComponent A s) = DEFAULT_SUPPORT_IDLE).
Proof.
  cbn zeta. split; [reflexivity|].
  intros [_ H]. vm_compute in H. discriminate H.
Qed.

(** C10, amended.  When a component that called [useMotionify] unmounts,
    each setting it had configured away from the library default is reset
    to that default (threshold to 8, [supportIdle] to false), whatever the
    provider holds at that moment; a setting it had left at the default is
    not touched. *)
Theorem unmount_resets_configured config s :
  (~ thresholdOf config == DEFAULT_THRESHOLD ->
   threshold (Hook.unmountComponent config s) = DEFAULT_THRESHOLD) /\
  (thresholdOf config == DEFAULT_THRESHOLD ->
   threshold (Hook.unmountComponent config s) = threshold s) /\
  (supportIdleOf config <> DEFAULT_SUPPORT_IDLE ->
   supportIdle (Hook.unmountComponent config s) = DEFAULT_SUPPORT_IDLE) /\
  (supportIdleOf config = DEFAULT_SUPPORT_IDLE ->
   supportIdle (Hook.unmountComponent config s) = supportIdle s).
Proof.
  unfold Hook.unmountComponent, cleanups, Qneqb.
  destruct (Qeq_bool_spec (thresholdOf config) DEFAULT_THRESHOLD) as [Et|Et];
    destruct (supportIdleOf config) eqn:Es; cbn [negb Bool.eqb
      DEFAULT_SUPPORT_IDLE optList app fold_left runCleanup];
    repeat split; intros H; try reflexivity; try contradiction;
    try discriminate; try (exfalso; apply H; reflexivity).
Qed.

Lemma unmount_resets_configured_witness :
  threshold (Hook.unmountComponent (mkConfig (Some 15) (Some true)) (init 20 true))
    = DEFAULT_THRESHOLD /\
  supportIdle (Hook.unmountComponent (mkConfig (Some 15) (Some true)) (init 20 true))
    = DEFAULT_SUPPORT_IDLE.
Proof.
  split.
  - apply (proj1 (unmount_resets_configured
                    (mkConfig (Some 15) (Some true)) (init 20 true))).
    vm_compute. discriminate.
  - apply (proj1 (proj2 (proj2 (unmount_resets_configured
                    (mkConfig (Some 15) (Some true)) (init 20 true))))).
    vm_compute. discriminate.
Defined.

End HookCleanup.

(** ** Constructing an interpolation config *)

Section Construction.
Import Interpolation.

(** C8, as worded, fails: [createInterpolation] returns for mismatched
    lengths, for a single breakpoint and for a decreasing input range. *)
Lemma createInterpolation_counterexample :
  ~ (forall ins outs e, invalidSpec ins outs ->
       exists m, Utils.createInterpolation ins outs e
                 = Thrown (ConfigurationError m)).
Proof.
  intros H.
  destruct (H [0; 100] (Numbers [1]) None) as [m Hm].
  - left. cbn. discriminate.
  - discriminate Hm.
Qed.

Lemma createInterpolation_returns_invalid :
  invalidSpec [0; 100] (Numbers [1]) /\
  invalidSpec [0] (Numbers [1]) /\
  invalidSpec [100; 0] (Numbers [0; 1]) /\
  Utils.createInterpolation [0; 100] (Numbers [1]) None
    = Returned (mkInterpolation [0; 100] (Numbers [1]) (Some clamp)) /\
  Utils.createInterpolation [0] (Numbers [1]) None
    = Returned (mkInterpolation [0] (Numbers [1]) (Some clamp)) /\
  Utils.createInterpolation [100; 0] (Numbers [0; 1]) None
    = Returned (mkInterpolation [100; 0] (Numbers [0; 1]) (Some clamp)).
Proof.
  repeat split.
  - left. cbn. discriminate.
  - right. left. cbn. lia.
  - right. right. cbn. intros [H _]. vm_compute in H. discriminate H.
Qed.

(** C8, amended.  [createInterpolation] does not validate: for every input
    range, output range and extrapolation mode, the invalid ones included,
    it returns a config that holds the two ranges as given and the mode,
    ['clamp'] when none was passed. *)
Theorem createInterpolation_total ins outs e :
  exists c,
    Utils.createInterpolation ins outs e = Returned c /\
    inputRange c = ins /\
    outputRange c = outs /\
    extrapolate c = Some (Utils.getExtrapolationMode e).
Proof.
  eexists. split; [reflexivity|]. cbn.
  repeat split. now destruct e as [[| |]|].
Qed.

End Construction.

(** ** Interpolation at the end breakpoints *)

Section Endpoints.
Import Interpolation.













End Endpoints.

(** * Further properties of the provider *)

(** ** The idle timer *)

Section IdleTimer.
Import Provider.

Lemma OneTimer_init thr si : OneTimer (timers (init thr si)).
Proof. left. reflexivity. Qed.

Lemma FreshHandles_init thr si : FreshHandles (timers (init thr si)).
Proof. split; cbn; [lia|discriminate]. Qed.

(** Re-arming leaves the new handle alone in the queue. *)
Lemma resetScrollTimeout_pending t :
  OneTimer t ->
  pending (resetScrollTimeout t) = [nextHandle t] /\
  scrollTimeoutRef (resetScrollTimeout t) = Some (nextHandle t) /\
  nextHandle (resetScrollTimeout t) = S (nextHandle t).
Proof.
  intros [E|(h & E & R)]; unfold resetScrollTimeout, setTimeout.
  - destruct (scrollTimeoutRef t); cbn; rewrite E; cbn; auto.
  - rewrite R. cbn. rewrite E. cbn. rewrite Nat.eqb_refl. cbn. auto.
Qed.

Lemma OneTimer_step s ev :
  OneTimer (timers s) -> OneTimer (timers (step s ev)).
Proof.
  intros H. destruct ev as [e|h| |v|b]; cbn [step].
  - unfold onScroll; cbn [timers]. destruct (supportIdleRef s); [|exact H].
    destruct (resetScrollTimeout_pending _ H) as (Hp & Hr & _).
    right. eauto.
  - unfold fireTimeout. destruct (existsb _ _); [|exact H].
    cbn [resetToIdle expire timers].
    destruct H as [E|(h' & E & R)]; unfold OneTimer; cbn; rewrite E; cbn.
    + now left.
    + destruct (Nat.eqb h' h); cbn; [now left|right; eauto].
  - exact H.
  - unfold setThreshold. now destruct (Qltb 0 v).
  - exact H.
Qed.

Lemma FreshHandles_step s ev :
  FreshHandles (timers s) -> FreshHandles (timers (step s ev)).
Proof.
  intros H. destruct ev as [e|h| |v|b]; cbn [step].
  - unfold onScroll; cbn [timers]. destruct (supportIdleRef s); [|exact H].
    destruct H as [H1 H2].
    unfold resetScrollTimeout, setTimeout, FreshHandles.
    destruct (scrollTimeoutRef (timers s)); cbn; split; try lia;
      intros k Hk; injection Hk as <-; lia.
  - unfold fireTimeout. destruct (existsb _ _); exact H.
  - exact H.
  - unfold setThreshold. now destruct (Qltb 0 v).
  - exact H.
Qed.

Lemma timers_reachable s :
  reachable s -> OneTimer (timers s) /\ FreshHandles (timers s).
Proof.
  intros (thr & si & evs & ->).
  assert (G : forall evs s0,
             OneTimer (timers s0) /\ FreshHandles (timers s0) ->
             OneTimer (timers (run s0 evs)) /\
             FreshHandles (timers (run s0 evs))).
  { clear. induction evs as [|ev evs IH]; intros s0 H; cbn; [exact H|].
    apply IH. destruct H. split;
      [now apply OneTimer_step|now apply FreshHandles_step]. }
  apply G. split; [apply OneTimer_init|apply FreshHandles_init].
Qed.

(** X1.  In every reachable state at most one idle timer is pending; a
    pending timer is the one whose handle [scrollTimeoutRef] holds, and
    its handle is positive (so the ref is truthy) and already handed out. *)
Theorem at_most_one_timer s :
  reachable s ->
  (List.length (pending (timers s)) <= 1)%nat /\
  (forall h, In h (pending (timers s)) ->
     scrollTimeoutRef (timers s) = Some h /\
     (1 <= h < nextHandle (timers s))%nat).
Proof.
  intros Hr. destruct (timers_reachable s Hr) as [[E|(h & E & R)] [_ HF]];
    rewrite E; cbn.
  - split; [lia|tauto].
  - split; [lia|]. intros k [<-|[]]. split; [exact R|now apply HF].
Qed.

Lemma at_most_one_timer_witness :
  (List.length (pending (timers midGesture)) <= 1)%nat /\
  (forall h, In h (pending (timers midGesture)) ->
     scrollTimeoutRef (timers midGesture) = Some h /\
     (1 <= h < nextHandle (timers midGesture))%nat).
Proof.
  apply (at_most_one_timer midGesture).
  exists 8, true,
    [Scroll (mkEvent 0 10000 800); Scroll (mkEvent 50 10000 800)].
  reflexivity.
Defined.

(** X2.  With idle support on in the ref, a sample cancels whatever timer
    was pending and arms a new one, which is then the only pending timer;
    when that timer fires the provider is idle, not scrolling, with no
    timer left and the published offset untouched. *)
Theorem sample_rearms_idle_timer e s :
  reachable s ->
  supportIdleRef s = true ->
  let h := nextHandle (timers s) in
  let s1 := onScroll e s in
  let s2 := fireTimeout h s1 in
  pending (timers s1) = [h] /\
  directionShared s2 = idle /\ direction s2 = idle /\
  isScrolling s2 = false /\ isUserScrollingRef s2 = false /\
  pending (timers s2) = [] /\ scrollY s2 = scrollY s1.
Proof.
  intros Hr Hsi h s1 s2.
  destruct (timers_reachable s Hr) as [H1 _].
  destruct (resetScrollTimeout_pending _ H1) as (Hp & _ & _).
  assert (E1 : pending (timers s1) = [h]).
  { subst s1. unfold onScroll; cbn [timers]. rewrite Hsi. exact Hp. }
  split; [exact E1|].
  subst s2. unfold fireTimeout. rewrite E1. cbn [existsb].
  rewrite Nat.eqb_refl. cbn [orb resetToIdle expire directionShared
    direction isScrolling isUserScrollingRef timers pending scrollY].
  rewrite E1. cbn. rewrite Nat.eqb_refl. cbn. repeat split.
Qed.

Lemma sample_rearms_idle_timer_witness :
  pending (timers (onScroll (mkEvent 60 10000 800) midGesture))
  = [nextHandle (timers midGesture)].
Proof.
  apply (sample_rearms_idle_timer (mkEvent 60 10000 800) midGesture).
  - exists 8, true,
      [Scroll (mkEvent 0 10000 800); Scroll (mkEvent 50 10000 800)].
    reflexivity.
  - reflexivity.
Defined.

(** X3.  After the provider's unmount cleanup no timer is pending, so no
    handle can fire against the torn-down provider. *)
Theorem unmount_cancels_timer s :
  reachable s ->
  pending (timers (Provider.unmount s)) = [] /\
  (forall h, fireTimeout h (Provider.unmount s) = Provider.unmount s).
Proof.
  intros Hr. destruct (timers_reachable s Hr) as [H1 _].
  assert (E : pending (timers (Provider.unmount s)) = []).
  { unfold Provider.unmount; cbn [timers].
    destruct H1 as [E|(h & E & R)].
    - destruct (scrollTimeoutRef (timers s)); [|exact E].
      cbn. now rewrite E.
    - rewrite R. cbn. rewrite E. cbn. now rewrite Nat.eqb_refl. }
  split; [exact E|].
  intros h. unfold fireTimeout. now rewrite E.
Qed.

Lemma unmount_cancels_timer_witness :
  pending (timers (Provider.unmount midGesture)) = [].
Proof.
  apply (unmount_cancels_timer midGesture).
  exists 8, true,
    [Scroll (mkEvent 0 10000 800); Scroll (mkEvent 50 10000 800)].
  reflexivity.
Defined.

End IdleTimer.

(** ** Providers that never enable idle support *)

Section NoIdleSupport.
Import Provider.

Lemma newDirection_not_idle td thr : newDirection td thr <> Some idle.
Proof.
  unfold newDirection. destruct (Qltb 0 td); [discriminate|].
  destruct (Qltb td (- thr)); discriminate.
Qed.

Lemma onScroll_keeps_not_idle e s :
  directionShared s <> idle -> directionShared (onScroll e s) <> idle.
Proof.
  intros H. rewrite directionShared_onScroll.
  pose proof (newDirection_not_idle
                (clampedY e - scrollStartYRef (onScroll e s))
                (thresholdRef s)) as Hn.
  destruct (newDirection _ _) as [d|]; [congruence|exact H].
Qed.

Lemma NoIdle_step s ev :
  ev <> SetSupportIdle true -> NoIdle s ->
  NoIdle (step s ev) /\
  (directionShared s <> idle -> directionShared (step s ev) <> idle).
Proof.
  intros Hev (H1 & H2 & H3). destruct ev as [e|h| |v|b]; cbn [step].
  - split; [|apply onScroll_keeps_not_idle].
    unfold NoIdle, onScroll; cbn. rewrite H2. auto.
  - unfold fireTimeout. rewrite H3. cbn. unfold NoIdle. auto.
  - unfold NoIdle; cbn. auto.
  - unfold setThreshold. destruct (Qltb 0 v); unfold NoIdle; cbn; auto.
  - destruct b; [congruence|]. unfold NoIdle; cbn. auto.
Qed.

Lemma NoIdle_run evs : forall s,
  neverEnablesIdle evs -> NoIdle s ->
  NoIdle (run s evs) /\
  (directionShared s <> idle -> directionShared (run s evs) <> idle).
Proof.
  induction evs as [|ev evs IH]; intros s Hevs Hs; cbn; [tauto|].
  inversion Hevs as [|? ? Hev Hrest]; subst.
  destruct (NoIdle_step s ev Hev Hs) as [Hs' Hd'].
  destruct (IH (step s ev) Hrest Hs') as [Hs'' Hd''].
  split; [exact Hs''|]. intros Hd. apply Hd'', Hd', Hd.
Qed.

(** X4.  A provider created without idle support, on which no consumer
    switches it on, never arms a timer, and once its direction has left
    [idle] it never returns to [idle]. *)
Theorem no_idle_without_support thr pre post :
  neverEnablesIdle (pre ++ post) ->
  pending (timers (run (init thr false) (pre ++ post))) = [] /\
  (directionShared (run (init thr false) pre) <> idle ->
   directionShared (run (init thr false) (pre ++ post)) <> idle).
Proof.
  intros H. apply Forall_app in H. destruct H as [Hpre Hpost].
  assert (H0 : NoIdle (init thr false)) by (unfold NoIdle; cbn; auto).
  destruct (NoIdle_run pre _ Hpre H0) as [H1 _].
  destruct (NoIdle_run post _ Hpost H1) as [H2 Hd].
  unfold run in *. rewrite fold_left_app.
  split; [apply H2|exact Hd].
Qed.

Lemma no_idle_without_support_witness :
  pending (timers (run (init 8 false)
     ([Scroll (mkEvent 0 10000 800); Scroll (mkEvent 50 10000 800)]
      ++ [TimerFires 1; SetThreshold 20; Render]))) = [].
Proof.
  apply (no_idle_without_support 8
           [Scroll (mkEvent 0 10000 800); Scroll (mkEvent 50 10000 800)]
           [TimerFires 1; SetThreshold 20; Render]).
  repeat constructor; discriminate.
Defined.

End NoIdleSupport.

(** ** Content that fits the viewport *)

Section ContentFits.
Import Provider.

Lemma clampedY_fit e :
  contentSize_height e <= layoutMeasurement_height e -> clampedY e == 0.
Proof.
  intros H. pose proof (clampedY_bounds e) as [Hlo Hhi].
  assert (Hm : maxScrollY e == 0).
  { unfold maxScrollY. rewrite Q.max_l; [reflexivity|lra]. }
  lra.
Qed.

Lemma anchor_cases e s :
  scrollStartYRef (onScroll e s) = clampedY e \/
  (isUserScrollingRef s = true /\
   scrollStartYRef (onScroll e s) = scrollStartYRef s).
Proof.
  unfold onScroll; cbn [scrollStartYRef].
  destruct (isUserScrollingRef s); cbn [negb];
    destruct (isDirectionChange _ _); auto.
Qed.

Lemma Fit_step s ev :
  match ev with
  | Scroll e => contentSize_height e <= layoutMeasurement_height e
  | _ => True
  end ->
  Fit s -> Fit (step s ev).
Proof.
  intros Hev (Hp & Hy & Hs & Hr & Ht & Hd & Hj).
  destruct ev as [e|h| |v|b]; cbn [step].
  - pose proof (clampedY_fit e Hev) as Hc.
    assert (Ha : scrollStartYRef (onScroll e s) == 0).
    { destruct (anchor_cases e s) as [E|[Hu E]]; rewrite E; auto. }
    assert (Hdir : directionShared (onScroll e s) = idle).
    { rewrite directionShared_onScroll.
      destruct (newDirection_cases
                  (clampedY e - scrollStartYRef (onScroll e s))
                  (thresholdRef s)) as (_ & _ & Hn).
      rewrite Hn; [exact Hd|lra|lra]. }
    refine (conj Hc (conj Hc (conj (fun _ => Ha)
              (conj Hr (conj Ht (conj Hdir _)))))).
    rewrite direction_onScroll; [exact Hdir|congruence].
  - unfold fireTimeout. destruct (existsb _ _).
    + unfold Fit; cbn. repeat split; try assumption. discriminate.
    + unfold Fit. repeat split; assumption.
  - unfold Fit; cbn. repeat split; assumption.
  - unfold setThreshold. destruct (Qltb_spec 0 v).
    + unfold Fit; cbn. repeat split; try assumption. lra.
    + unfold Fit. repeat split; assumption.
  - unfold Fit; cbn. repeat split; assumption.
Qed.

Lemma Fit_trace evs : forall s,
  allFit evs -> Fit s -> Forall Fit (trace s evs).
Proof.
  induction evs as [|ev evs IH]; intros s Hevs Hs; cbn; [constructor|].
  inversion Hevs as [|? ? Hev Hrest]; subst.
  pose proof (Fit_step s ev Hev Hs) as Hs'.
  constructor; [exact Hs'|now apply IH].
Qed.

(** X5.  While every sample reports content no taller than the viewport,
    a provider started with a threshold that is not negative publishes
    offset 0 and stays [idle] after every event, whatever the raw offsets,
    timers and setter calls. *)
Theorem content_fits_stays_idle thr si evs :
  0 <= thr ->
  allFit evs ->
  Forall (fun s => directionShared s = idle /\ direction s = idle /\
                   scrollY s == 0)
         (trace (init thr si) evs).
Proof.
  intros Hthr Hevs.
  assert (H0 : Fit (init thr si)).
  { unfold Fit; cbn.
    repeat split; try assumption; try reflexivity; try discriminate. }
  pose proof (Fit_trace evs _ Hevs H0) as H.
  eapply Forall_impl; [|exact H].
  intros s (_ & Hy & _ & _ & _ & Hd & Hj). auto.
Qed.

Lemma content_fits_stays_idle_witness :
  Forall (fun s => directionShared s = idle /\ direction s = idle /\
                   scrollY s == 0)
    (trace (init 8 true)
       [Scroll (mkEvent 40 300 800); Scroll (mkEvent (-25) 300 800);
        SetThreshold 2; Render; Scroll (mkEvent 90 800 800)]).
Proof.
  apply (content_fits_stays_idle 8 true).
  - vm_compute. discriminate.
  - repeat constructor; vm_compute; discriminate.
Defined.

End ContentFits.

(** ** Samples that move the anchor *)

Section AnchorReset.
Import Provider.

Lemma newDirection_zero td thr :
  td == 0 -> 0 <= thr -> newDirection td thr = None.
Proof.
  intros Htd Hthr. destruct (newDirection_cases td thr) as (_ & _ & Hn).
  apply Hn; lra.
Qed.

(** When the anchor ends up on the sample itself the direction is held. *)
Lemma anchored_on_sample_holds e s :
  scrollStartYRef (onScroll e s) = clampedY e ->
  0 <= thresholdRef s ->
  directionShared (onScroll e s) = directionShared s.
Proof.
  intros Ha Hthr. rewrite directionShared_onScroll, Ha.
  rewrite newDirection_zero; [reflexivity|lra|exact Hthr].
Qed.

Lemma isDirectionChange_reversal ctd delta :
  (0 < ctd /\ delta < 0) \/ (ctd < 0 /\ 0 < delta) ->
  isDirectionChange ctd delta = true.
Proof.
  intros H. unfold isDirectionChange.
  destruct (Qltb_spec 0 ctd), (Qltb_spec delta 0),
    (Qltb_spec ctd 0), (Qltb_spec 0 delta); cbn; try reflexivity; lra.
Qed.






(** X21.  The provider's [threshold] prop is not validated.  With a
    negative threshold in the ref, every sample that puts the anchor on
    itself (the first sample of a gesture, a reversal) reports [up], with
    no upward movement at all. *)
Theorem negative_threshold_reports_up e s :
  thresholdRef s < 0 ->
  isUserScrollingRef s = false \/
  (isUserScrollingRef s = true /\
   ((scrollStartYRef s < clampedY e /\ clampedY e < previousYRef s) \/
    (clampedY e < scrollStartYRef s /\ previousYRef s < clampedY e))) ->
  directionShared (onScroll e s) = up.
Proof.
  intros Hthr Hcase.
  assert (Ha : scrollStartYRef (onScroll e s) = clampedY e).
  { unfold onScroll; cbn [scrollStartYRef].
    destruct Hcase as [Hu|[Hu Hrev]]; rewrite Hu; cbn [negb].
    - now destruct (isDirectionChange _ _).
    - rewrite isDirectionChange_reversal; [reflexivity|].
      destruct Hrev as [[? ?]|[? ?]]; [left|right]; split; lra. }
  rewrite directionShared_onScroll, Ha.
  destruct (newDirection_cases (clampedY e - clampedY e) (thresholdRef s))
    as (_ & Hu & _).
  rewrite Hu; [reflexivity|lra|lra].
Qed.

Lemma negative_threshold_reports_up_witness :
  directionShared (onScroll (mkEvent 0 10000 800) (init (-5) false)) = up.
Proof.
  apply (negative_threshold_reports_up (mkEvent 0 10000 800)
           (init (-5) false)).
  - vm_compute. reflexivity.
  - left. reflexivity.
Defined.

End AnchorReset.

(** ** Scrolling up *)

Section ScrollingUp.
Import Provider.

Lemma isDirectionChange_descending ctd delta :
  ctd <= 0 -> delta <= 0 -> (ctd == 0 -> delta == 0) ->
  isDirectionChange ctd delta = false.
Proof.
  intros Hc Hd Hz. unfold isDirectionChange.
  destruct (Qltb_spec 0 ctd); [lra|].
  destruct (Qltb_spec 0 delta); [lra|].
  rewrite andb_false_r. cbn [andb orb].
  destruct (Qeq_bool_spec ctd 0) as [E|E]; [|reflexivity].
  cbn [andb]. destruct (Qltb_spec 0 (Qabs delta)) as [Ha|Ha]; [|reflexivity].
  rewrite (Hz E) in Ha. vm_compute in Ha. discriminate Ha.
Qed.

Lemma Qltb_ext a b c d : (a < b <-> c < d) -> Qltb a b = Qltb c d.
Proof.
  intros H. destruct (Qltb_spec a b), (Qltb_spec c d); tauto.
Qed.

(** One descending sample inside a gesture anchored at or above the
    previous offset: the anchor stays, and the direction becomes [up]
    exactly when the sample is more than the threshold below the anchor. *)
Lemma Desc_onScroll e s :
  Desc s -> clampedY e <= previousYRef s ->
  Desc (onScroll e s) /\
  scrollStartYRef (onScroll e s) = scrollStartYRef s /\
  directionShared (onScroll e s) =
    if Qltb (clampedY e) (scrollStartYRef s - thresholdRef s)
    then up else directionShared s.
Proof.
  intros (Hu & Hp & Hthr) Hc.
  assert (Ha : scrollStartYRef (onScroll e s) = scrollStartYRef s).
  { unfold onScroll; cbn [scrollStartYRef]. rewrite Hu; cbn [negb].
    rewrite isDirectionChange_descending; [reflexivity|lra..]. }
  split; [|split; [exact Ha|]].
  - unfold Desc. rewrite Ha. cbn. repeat split; [lra|exact Hthr].
  - rewrite directionShared_onScroll, Ha. unfold newDirection.
    destruct (Qltb_spec 0 (clampedY e - scrollStartYRef s)); [lra|].
    rewrite (Qltb_ext _ _ (clampedY e) (scrollStartYRef s - thresholdRef s))
      by (split; intros; lra).
    now destruct (Qltb _ _).
Qed.

Lemma last_default (l : list Q) : forall x d d',
  last (x :: l) d = last (x :: l) d'.
Proof.
  induction l as [|y l IH]; intros x d d'; [reflexivity|].
  change (last (y :: l) d = last (y :: l) d'). apply IH.
Qed.

Lemma last_cons (l : list Q) x d : last (x :: l) d = last l x.
Proof.
  destruct l as [|y l]; [reflexivity|].
  change (last (y :: l) d = last (y :: l) x). apply last_default.
Qed.

Lemma descending_last_le l : forall hi, descending hi l -> last l hi <= hi.
Proof.
  induction l as [|x l IH]; intros hi H; [apply Qle_refl|].
  destruct H as [Hx Hl]. specialize (IH x Hl).
  destruct l as [|y l]; [exact Hx|].
  change (last (x :: y :: l) hi) with (last (y :: l) hi).
  rewrite (last_default l y hi x). lra.
Qed.

Lemma Desc_run es : forall e s,
  Desc s ->
  descending (previousYRef s) (map clampedY (e :: es)) ->
  let s' := run s (map Scroll (e :: es)) in
  scrollStartYRef s' = scrollStartYRef s /\
  directionShared s' =
    if Qltb (last (map clampedY es) (clampedY e))
            (scrollStartYRef s - thresholdRef s)
    then up else directionShared s.
Proof.
  induction es as [|e' es IH]; intros e s HD [Hc Hrest].
  - cbn. destruct (Desc_onScroll e s HD Hc) as (_ & Ha & Hd). auto.
  - destruct (Desc_onScroll e s HD Hc) as (HD' & Ha & Hd).
    specialize (IH e' (onScroll e s) HD' Hrest).
    cbn zeta in IH. destruct IH as [Ha' Hd'].
    change (run s (map Scroll (e :: e' :: es)))
      with (run (onScroll e s) (map Scroll (e' :: es))).
    cbn zeta. split; [congruence|].
    rewrite Hd', Hd, Ha.
    change (thresholdRef (onScroll e s)) with (thresholdRef s).
    change (map clampedY (e' :: es)) with (clampedY e' :: map clampedY es).
    rewrite (last_cons (map clampedY es) (clampedY e') (clampedY e)).
    destruct (Qltb_spec (last (map clampedY es) (clampedY e'))
                (scrollStartYRef s - thresholdRef s)); [reflexivity|].
    destruct (Qltb_spec (clampedY e) (scrollStartYRef s - thresholdRef s));
      [|reflexivity].
    exfalso.
    destruct Hrest as [H1 H2]. pose proof (descending_last_le _ _ H2).
    cbn in H1. lra.
Qed.

(** X7.  Inside a gesture whose anchor is at or above the previous offset
    (as it is right after a reversal or a first sample), with a threshold
    that is not negative, samples whose clamped offsets never rise leave
    the anchor where it is; the direction is [up] as soon as the offset is
    more than the threshold below the anchor, and until then it keeps the
    value it had. *)
Theorem upward_hysteresis e es s :
  isUserScrollingRef s = true ->
  previousYRef s <= scrollStartYRef s ->
  0 <= thresholdRef s ->
  descending (previousYRef s) (map clampedY (e :: es)) ->
  let s' := run s (map Scroll (e :: es)) in
  let final := last (map clampedY es) (clampedY e) in
  scrollStartYRef s' = scrollStartYRef s /\
  (final < scrollStartYRef s - thresholdRef s -> directionShared s' = up) /\
  (scrollStartYRef s - thresholdRef s <= final ->
   directionShared s' = directionShared s).
Proof.
  intros Hu Hp Hthr Hdesc s' final.
  destruct (Desc_run es e s (conj Hu (conj Hp Hthr)) Hdesc) as [Ha Hd].
  fold s' final in Ha, Hd.
  split; [exact Ha|]. rewrite Hd.
  destruct (Qltb_spec final (scrollStartYRef s - thresholdRef s));
    split; intros; try reflexivity; lra.
Qed.

(** After the reversal at 90 of the trace 0, 50, 100, 90: offsets 85 and
    83 are within 8 of the anchor and hold [down]. *)
Lemma upward_hysteresis_witness :
  let s := run (init 8 false) (map (sample 10000 800) [0; 50; 100; 90]) in
  directionShared
    (run s (map Scroll [mkEvent 85 10000 800; mkEvent 83 10000 800]))
  = directionShared s.
Proof.
  intros s.
  apply (upward_hysteresis (mkEvent 85 10000 800) [mkEvent 83 10000 800] s).
  - reflexivity.
  - vm_compute. discriminate.
  - vm_compute. discriminate.
  - vm_compute. repeat split; discriminate.
  - vm_compute. discriminate.
Defined.

(** X8.  From a fresh provider with a threshold that is not negative,
    samples whose clamped offsets never rise report [up] exactly once the
    offset has fallen more than the threshold below the first sample;
    until then the direction is [idle]. *)
Theorem scroll_up_from_rest thr si e es :
  0 <= thr ->
  descending (clampedY e) (map clampedY es) ->
  let s' := run (init thr si) (map Scroll (e :: es)) in
  let final := last (map clampedY es) (clampedY e) in
  (final < clampedY e - thr -> directionShared s' = up) /\
  (clampedY e - thr <= final -> directionShared s' = idle).
Proof.
  intros Hthr Hdesc s' final.
  set (s1 := onScroll e (init thr si)).
  assert (Ha : scrollStartYRef s1 = clampedY e).
  { subst s1. unfold onScroll; cbn. now destruct (isDirectionChange _ _). }
  assert (Hd : directionShared s1 = idle).
  { subst s1. rewrite anchored_on_sample_holds; [reflexivity|exact Ha|].
    exact Hthr. }
  destruct es as [|e' es].
  - subst s' final. cbn. fold s1. split; intros; [lra|exact Hd].
  - assert (HD : Desc s1).
    { unfold Desc. rewrite Ha. subst s1. cbn. repeat split;
        [apply Qle_refl|exact Hthr]. }
    destruct (Desc_run es e' s1 HD Hdesc) as [_ Hr].
    change (run s1 (map Scroll (e' :: es))) with s' in Hr.
    rewrite Ha, Hd in Hr. change (thresholdRef s1) with thr in Hr.
    subst final.
    change (map clampedY (e' :: es)) with (clampedY e' :: map clampedY es).
    rewrite last_cons. rewrite Hr.
    destruct (Qltb_spec (last (map clampedY es) (clampedY e'))
                (clampedY e - thr)); split; intros; try reflexivity; lra.
Qed.

Lemma scroll_up_from_rest_witness :
  directionShared
    (run (init 8 false)
       (map Scroll [mkEvent 300 10000 800; mkEvent 295 10000 800;
                    mkEvent 291 10000 800])) = up /\
  directionShared
    (run (init 8 false)
       (map Scroll [mkEvent 300 10000 800; mkEvent 295 10000 800])) = idle.
Proof.
  split.
  - apply (scroll_up_from_rest 8 false (mkEvent 300 10000 800)
             [mkEvent 295 10000 800; mkEvent 291 10000 800]).
    + vm_compute. discriminate.
    + vm_compute. repeat split; discriminate.
    + vm_compute. reflexivity.
  - apply (scroll_up_from_rest 8 false (mkEvent 300 10000 800)
             [mkEvent 295 10000 800]).
    + vm_compute. discriminate.
    + vm_compute. repeat split; discriminate.
    + vm_compute. discriminate.
Defined.

End ScrollingUp.

(** ** Scrolling down *)

Section ScrollingDown.
Import Provider.

Lemma isDirectionChange_ascending ctd delta :
  0 <= ctd -> 0 <= delta -> (ctd == 0 -> delta == 0) ->
  isDirectionChange ctd delta = false.
Proof.
  intros Hc Hd Hz. unfold isDirectionChange.
  destruct (Qltb_spec delta 0); [lra|].
  destruct (Qltb_spec ctd 0); [lra|].
  rewrite andb_false_r. cbn [andb orb].
  destruct (Qeq_bool_spec ctd 0) as [E|E]; [|reflexivity].
  cbn [andb]. destruct (Qltb_spec 0 (Qabs delta)) as [Ha|Ha]; [|reflexivity].
  rewrite (Hz E) in Ha. vm_compute in Ha. discriminate Ha.
Qed.

(** One ascending sample inside a gesture anchored at or below the
    previous offset: the anchor stays, and the direction becomes [down] as
    soon as the sample is above the anchor. *)
Lemma Asc_onScroll e s :
  Asc s -> previousYRef s <= clampedY e ->
  Asc (onScroll e s) /\
  scrollStartYRef (onScroll e s) = scrollStartYRef s /\
  directionShared (onScroll e s) =
    if Qltb (scrollStartYRef s) (clampedY e) then down else directionShared s.
Proof.
  intros (Hu & Hp & Hthr) Hc.
  assert (Ha : scrollStartYRef (onScroll e s) = scrollStartYRef s).
  { unfold onScroll; cbn [scrollStartYRef]. rewrite Hu; cbn [negb].
    rewrite isDirectionChange_ascending; [reflexivity|lra..]. }
  split; [|split; [exact Ha|]].
  - unfold Asc. rewrite Ha. cbn. repeat split; [lra|exact Hthr].
  - rewrite directionShared_onScroll, Ha. unfold newDirection.
    rewrite (Qltb_ext 0 (clampedY e - scrollStartYRef s)
               (scrollStartYRef s) (clampedY e)) by (split; intros; lra).
    destruct (Qltb_spec (scrollStartYRef s) (clampedY e)); [reflexivity|].
    destruct (Qltb_spec (clampedY e - scrollStartYRef s) (- thresholdRef s));
      [lra|reflexivity].
Qed.

Lemma ascending_last_ge l : forall lo, ascending lo l -> lo <= last l lo.
Proof.
  induction l as [|x l IH]; intros lo H; [apply Qle_refl|].
  destruct H as [Hx Hl]. specialize (IH x Hl).
  rewrite last_cons. lra.
Qed.

Lemma Asc_run es : forall e s,
  Asc s ->
  ascending (previousYRef s) (map clampedY (e :: es)) ->
  directionShared (run s (map Scroll (e :: es))) =
    if Qltb (scrollStartYRef s) (last (map clampedY es) (clampedY e))
    then down else directionShared s.
Proof.
  induction es as [|e' es IH]; intros e s HA [Hc Hrest].
  - cbn. now destruct (Asc_onScroll e s HA Hc) as (_ & _ & Hd).
  - destruct (Asc_onScroll e s HA Hc) as (HA' & Ha & Hd).
    specialize (IH e' (onScroll e s) HA' Hrest).
    change (run s (map Scroll (e :: e' :: es)))
      with (run (onScroll e s) (map Scroll (e' :: es))).
    rewrite IH, Hd, Ha.
    change (map clampedY (e' :: es)) with (clampedY e' :: map clampedY es).
    rewrite (last_cons (map clampedY es) (clampedY e') (clampedY e)).
    destruct (Qltb_spec (scrollStartYRef s)
                (last (map clampedY es) (clampedY e'))); [reflexivity|].
    destruct (Qltb_spec (scrollStartYRef s) (clampedY e)); [|reflexivity].
    exfalso.
    destruct Hrest as [H1 H2]. pose proof (ascending_last_ge _ _ H2).
    cbn in H1. lra.
Qed.

(** X22.  From a fresh provider with a threshold that is not negative,
    samples whose clamped offsets never fall report [down] as soon as the
    offset is above the first sample, by however little: the threshold
    plays no part on the way down.  Until then the direction is [idle]. *)
Theorem scroll_down_from_rest thr si e es :
  0 <= thr ->
  ascending (clampedY e) (map clampedY es) ->
  let s' := run (init thr si) (map Scroll (e :: es)) in
  let final := last (map clampedY es) (clampedY e) in
  (clampedY e < final -> directionShared s' = down) /\
  (final <= clampedY e -> directionShared s' = idle).
Proof.
  intros Hthr Hasc s' final.
  set (s1 := onScroll e (init thr si)).
  assert (Ha : scrollStartYRef s1 = clampedY e).
  { subst s1. unfold onScroll; cbn. now destruct (isDirectionChange _ _). }
  assert (Hd : directionShared s1 = idle).
  { subst s1. rewrite anchored_on_sample_holds; [reflexivity|exact Ha|].
    exact Hthr. }
  destruct es as [|e' es].
  - subst s' final. cbn. fold s1. split; intros; [lra|exact Hd].
  - assert (HA : Asc s1).
    { unfold Asc. rewrite Ha. subst s1. cbn. repeat split;
        [apply Qle_refl|exact Hthr]. }
    pose proof (Asc_run es e' s1 HA Hasc) as Hr.
    change (run s1 (map Scroll (e' :: es))) with s' in Hr.
    rewrite Ha, Hd in Hr.
    subst final.
    change (map clampedY (e' :: es)) with (clampedY e' :: map clampedY es).
    rewrite last_cons. rewrite Hr.
    destruct (Qltb_spec (clampedY e) (last (map clampedY es) (clampedY e')));
      split; intros; try reflexivity; lra.
Qed.

Lemma scroll_down_from_rest_witness :
  directionShared
    (run (init 8 false)
       (map Scroll [mkEvent 300 10000 800; mkEvent 300 10000 800;
                    mkEvent (3001 # 10) 10000 800])) = down.
Proof.
  apply (scroll_down_from_rest 8 false (mkEvent 300 10000 800)
           [mkEvent 300 10000 800; mkEvent (3001 # 10) 10000 800]).
  - vm_compute. discriminate.
  - vm_compute. repeat split; discriminate.
  - vm_compute. reflexivity.
Defined.

End ScrollingDown.

(** ** Setters, renders and samples *)

Section SettersAndSamples.
Import Provider.

(** X9.  A setter call does not reach the classifier until the next
    render: processing a sample after [setThreshold] or [setSupportIdle]
    gives the same provider as processing it before the call.  Only the
    render copies the new values into the refs [onScroll] reads. *)
Theorem setters_commute_with_samples e v b s :
  onScroll e (setThreshold v s) = setThreshold v (onScroll e s) /\
  onScroll e (setSupportIdle b s) = setSupportIdle b (onScroll e s) /\
  (0 < v -> thresholdRef (syncRefs (setThreshold v s)) = v) /\
  supportIdleRef (syncRefs (setSupportIdle b s)) = b.
Proof.
  repeat split.
  - unfold setThreshold. destruct (Qltb 0 v); reflexivity.
  - intros Hv. unfold setThreshold.
    destruct (Qltb_spec 0 v); [reflexivity|contradiction].
Qed.

Lemma setters_commute_with_samples_witness :
  thresholdRef (syncRefs (setThreshold 20 (init 8 false))) = 20.
Proof.
  apply (setters_commute_with_samples (mkEvent 0 0 0) 20 false
           (init 8 false)).
  reflexivity.
Defined.

Lemma Tracked_step s ev : Tracked s -> Tracked (step s ev).
Proof.
  intros [H1 H2]. destruct ev as [e|h| |v|b]; cbn [step].
  - split; [reflexivity|apply clampedY_bounds].
  - unfold fireTimeout. destruct (existsb _ _); split; assumption.
  - split; assumption.
  - unfold setThreshold. destruct (Qltb 0 v); split; assumption.
  - split; assumption.
Qed.

(** X10.  In every reachable state the published offset is not negative
    and equals the offset the next delta is measured from, the React-state
    direction equals the shared one, and the scrolling flag equals the
    ref the classifier tests. *)
Theorem reachable_mirrors s :
  reachable s ->
  0 <= scrollY s /\
  scrollY s = previousYRef s /\
  direction s = directionShared s /\
  isScrolling s = isUserScrollingRef s.
Proof.
  intros Hr.
  destruct (Settled_reachable s Hr) as (Hu & Hd & _).
  assert (HT : Tracked s).
  { destruct Hr as (thr & si & evs & ->).
    assert (G : forall evs s0, Tracked s0 -> Tracked (run s0 evs)).
    { clear. induction evs as [|ev evs IH]; intros s0 H; cbn; [exact H|].
      apply IH. now apply Tracked_step. }
    apply G. split; [reflexivity|]. cbn. lra. }
  destruct HT as [H1 H2]. auto.
Qed.

Lemma reachable_mirrors_witness :
  0 <= scrollY midGesture /\
  scrollY midGesture = previousYRef midGesture /\
  direction midGesture = directionShared midGesture /\
  isScrolling midGesture = isUserScrollingRef midGesture.
Proof.
  apply (reachable_mirrors midGesture).
  exists 8, true,
    [Scroll (mkEvent 0 10000 800); Scroll (mkEvent 50 10000 800)].
  reflexivity.
Defined.

End SettersAndSamples.

(** * Further properties of the hook *)

Section HookMore.
Import Provider Hook.

(** X11.  Mounting and then unmounting a component gives back a provider
    that was at the library defaults, whatever the component had
    configured. *)
Theorem mount_unmount_at_defaults config s :
  threshold s = DEFAULT_THRESHOLD ->
  supportIdle s = DEFAULT_SUPPORT_IDLE ->
  unmountComponent config (fst (mount config s)) = s.
Proof.
  intros Ht Hs. destruct s; cbn in Ht, Hs; subst.
  unfold unmountComponent, cleanups, mount, thresholdEffect,
    supportIdleEffect, setThreshold.
  destruct (Qneqb (thresholdOf config) DEFAULT_THRESHOLD);
    destruct (supportIdleOf config);
    destruct (Qltb 0 (thresholdOf config)); reflexivity.
Qed.

Lemma mount_unmount_at_defaults_witness :
  unmountComponent (mkConfig (Some 15) (Some true))
    (fst (mount (mkConfig (Some 15) (Some true)) (init 8 false)))
  = init 8 false.
Proof.
  apply (mount_unmount_at_defaults (mkConfig (Some 15) (Some true))
           (init 8 false)); reflexivity.
Defined.

(** X12.  A configured threshold that is zero or negative is ignored when
    the component mounts, yet the cleanup still runs when it unmounts and
    sets the provider's threshold to 8, whatever it was. *)
Theorem nonpositive_threshold_config v si s s' :
  v <= 0 ->
  let config := mkConfig (Some v) si in
  threshold (fst (mount config s)) = threshold s /\
  threshold (unmountComponent config s') = DEFAULT_THRESHOLD.
Proof.
  intros Hv config.
  assert (Hne : Qneqb (thresholdOf config) DEFAULT_THRESHOLD = true).
  { unfold Qneqb, config; cbn.
    destruct (Qeq_bool_spec v DEFAULT_THRESHOLD) as [E|E]; [|reflexivity].
    unfold DEFAULT_THRESHOLD in E. lra. }
  assert (Hig : setThreshold v s = s).
  { unfold setThreshold. destruct (Qltb_spec 0 v); [lra|reflexivity]. }
  split.
  - unfold mount, thresholdEffect. rewrite Hne.
    change (thresholdOf config) with v. rewrite Hig.
    unfold supportIdleEffect.
    destruct (negb _); reflexivity.
  - unfold unmountComponent, cleanups. rewrite Hne.
    destruct (negb _); reflexivity.
Qed.

Lemma nonpositive_threshold_config_witness :
  threshold (fst (mount (mkConfig (Some (-5)) None) (init 20 false)))
    = threshold (init 20 false) /\
  threshold (unmountComponent (mkConfig (Some (-5)) None) (init 20 false))
    = DEFAULT_THRESHOLD.
Proof.
  apply (nonpositive_threshold_config (-5) None (init 20 false)
           (init 20 false)).
  vm_compute. discriminate.
Defined.

End HookMore.

(** * Properties of utils.ts *)

Section NumericHelpers.

(** X13.  [clamp] with [min <= max] lands in [[min, max]], leaves a value
    that is already inside unchanged, and is idempotent. *)
Theorem clamp_in_range value min max :
  min <= max ->
  (min <= Utils.clamp value min max /\ Utils.clamp value min max <= max) /\
  (min <= value <= max -> Utils.clamp value min max == value) /\
  Utils.clamp (Utils.clamp value min max) min max == Utils.clamp value min max.
Proof.
  intros H. unfold Utils.clamp.
  assert (B : min <= Qmin (Qmax value min) max <= max).
  { split; [|apply Q.le_min_r].
    apply Q.min_glb; [apply Q.le_max_r|exact H]. }
  split; [exact B|]. split.
  - intros [H1 H2]. rewrite Q.max_l by exact H1. now rewrite Q.min_l.
  - set (c := Qmin (Qmax value min) max) in *.
    rewrite (Q.max_l c min) by apply B. rewrite Q.min_l by apply B.
    reflexivity.
Qed.

Lemma clamp_in_range_witness :
  (0 <= Utils.clamp 150 0 100 /\ Utils.clamp 150 0 100 <= 100) /\
  (0 <= 150 <= 100 -> Utils.clamp 150 0 100 == 150) /\
  Utils.clamp (Utils.clamp 150 0 100) 0 100 == Utils.clamp 150 0 100.
Proof.
  apply (clamp_in_range 150 0 100). vm_compute. discriminate.
Defined.

(** X14.  With the bounds the wrong way round ([max < min]) [clamp]
    returns [max] for every value. *)
Theorem clamp_inverted_bounds value min max :
  max < min -> Utils.clamp value min max == max.
Proof.
  intros H. unfold Utils.clamp. apply Q.min_r.
  apply Qle_trans with min; [lra|apply Q.le_max_r].
Qed.

Lemma clamp_inverted_bounds_witness : Utils.clamp 50 100 0 == 0.
Proof.
  apply (clamp_inverted_bounds 50 100 0). vm_compute. reflexivity.
Defined.

End NumericHelpers.

Section Factories.

Lemma half_pos d : 0 < d / 2 <-> 0 < d.
Proof.
  assert (E : d / 2 == d * (1 # 2)) by (unfold Qdiv; reflexivity).
  split; intros Hd; lra.
Qed.

Lemma half_lt d : d / 2 < d <-> 0 < d.
Proof.
  assert (E : d / 2 == d * (1 # 2)) by (unfold Qdiv; reflexivity).
  split; intros Hd; lra.
Qed.

(** X17.  Each of the four interpolation factories returns as many outputs
    as breakpoints, and its breakpoints are strictly increasing exactly
    when [scrollDistance] is positive: a zero or negative distance yields a
    range that is not increasing. *)
Theorem factories_increasing_iff d fadeIn fromScale toScale factor degrees :
  let fade := Utils.createFadeInterpolation d fadeIn in
  let scale := Utils.createScaleInterpolation d fromScale toScale in
  let parallax := Utils.createParallaxInterpolation d factor in
  let rotation := Utils.createRotationInterpolation d degrees in
  Forall (fun c => outputLength (outputRange c) = List.length (inputRange c)
                   /\ (increasing (inputRange c) <-> 0 < d))
         [fade; scale; parallax; rotation].
Proof.
  cbn zeta.
  assert (Two : increasing [0; d] <-> 0 < d) by (cbn; tauto).
  constructor; [|constructor; [|constructor; [|constructor; [|constructor]]]];
    cbn [Utils.createFadeInterpolation Utils.createScaleInterpolation
         Utils.createParallaxInterpolation Utils.createRotationInterpolation
         inputRange outputRange outputLength List.length];
    (split; [|try exact Two]).
  - now destruct fadeIn as [[|]|].
  - cbn. pose proof (half_pos d). pose proof (half_lt d). tauto.
  - reflexivity.
  - reflexivity.
  - reflexivity.
Qed.

End Factories.

(** * Properties of the views *)

Section StyleObjects.
Import Style.

Lemma get_set_same k v o : get k (set k v o) = Some v.
Proof.
  induction o as [|[k' v'] o IH]; cbn.
  - now rewrite String.eqb_refl.
  - destruct (String.eqb k k') eqn:E; cbn; rewrite E; [reflexivity|exact IH].
Qed.

Lemma get_set_other k k' v o : k <> k' -> get k (set k' v o) = get k o.
Proof.
  intros Hne. induction o as [|[k2 v2] o IH]; cbn.
  - destruct (String.eqb_spec k k'); [contradiction|reflexivity].
  - destruct (String.eqb_spec k' k2) as [->|H2]; cbn.
    + destruct (String.eqb_spec k k2); [contradiction|reflexivity].
    + destruct (String.eqb k k2); [reflexivity|exact IH].
Qed.

(** Reading a key after [Object.assign]: the source wins where it has the
    key, the target shows through where it has not. *)
Lemma get_assign k source : forall target,
  NoDup (map fst source) ->
  get k (assign target source) =
  match get k source with
  | Some v => Some v
  | None => get k target
  end.
Proof.
  induction source as [|[k' v'] src IH]; intros target Hnd; [reflexivity|].
  inversion Hnd as [|? ? Hnotin Hnd']; subst.
  unfold assign in *; cbn [fold_left fst snd get].
  rewrite IH by exact Hnd'.
  destruct (String.eqb_spec k k') as [->|Hne].
  - assert (Hnone : get k' src = None).
    { clear -Hnotin. induction src as [|[k2 v2] src IH]; [reflexivity|].
      cbn in *. destruct (String.eqb_spec k' k2) as [->|_]; [tauto|].
      apply IH. tauto. }
    rewrite Hnone. apply get_set_same.
  - destruct (get k src); [reflexivity|]. now apply get_set_other.
Qed.

End StyleObjects.

Section Views.
Import Provider Style View.

(** X18.  In [MotionifyView], what [customEffects] returns is merged last:
    for every key it sets, its value is the one in the final style, the
    view's own [opacity] and [transform] included; every other key keeps
    the value the view computed. *)
Theorem customEffects_override p f d k :
  customEffects p = Some f ->
  NoDup (map fst (f d)) ->
  let own := animatedStyle (mkProps (animatedY p) (fadeScale p) None
                              (View.hideOn p) (View.translateRange p)) d in
  get k (animatedStyle p d) =
  match get k (f d) with
  | Some v => Some v
  | None => get k own
  end.
Proof.
  intros Hc Hnd own. subst own. unfold animatedStyle.
  rewrite Hc. cbn [customEffects animatedY fadeScale View.hideOn
    View.translateRange].
  now apply get_assign.
Qed.

(** The README's custom-effects example on a view that also slides: the
    custom [transform] replaces the view's own. *)
Lemma customEffects_override_witness :
  let f := fun d : Direction =>
    [("opacity"%string,
      Atomic (Num (if Direction_eqb d down then 3 # 10 else 1)));
     ("transform"%string,
      Transform [("scale"%string,
                  Num (if Direction_eqb d down then 95 # 100 else 1))])] in
  let p := View.mkProps true false (Some f) hideOnDown (mkRange 0 160) in
  get "transform" (animatedStyle p down)
  = Some (Transform [("scale"%string, Num (95 # 100))]).
Proof.
  intros f p.
  apply (customEffects_override p f down "transform"%string).
  - reflexivity.
  - cbn. repeat constructor; cbn; intuition discriminate.
Defined.

End Views.

Section Tab.
Import Provider View BottomTab.

Lemma idNeqb_false a b : idNeqb a b = false <-> a = b.
Proof.
  destruct a as [x|], b as [y|]; cbn; try (split; congruence).
  destruct (String.eqb_spec x y); cbn; split; congruence.
Qed.

(** The route is excluded when [currentId] is given and listed. *)
Lemma isExcluded_iff p :
  isExcluded p = true <->
  exists id, currentId p = Some id /\ In id (exclude p).
Proof.
  unfold isExcluded. destruct (currentId p) as [id|].
  - rewrite andb_true_iff, existsb_exists. split.
    + intros [_ (x & Hin & Hx)]. apply String.eqb_eq in Hx. subst x. eauto.
    + intros (id' & Hid & Hin). injection Hid as <-. split.
      * destruct (exclude p); [contradiction|reflexivity].
      * exists id. split; [exact Hin|apply String.eqb_refl].
  - rewrite andb_false_r. split; [discriminate|].
    intros (id & Hid & _). discriminate.
Qed.

Lemma idle_is_no_hideOn h : directionOf h <> idle.
Proof. destruct h; discriminate. Qed.

(** X19.  [MotionifyBottomTab] sits at [translateRange.to] exactly when
    the current route is not on the exclude list, the route did not change
    since the last commit, and the direction is the [hideOn] direction; in
    every other case it sits at [translateRange.from]. *)
Theorem tab_hidden_iff p prevIdRef d :
  let hidden :=
    ~ (exists id, currentId p = Some id /\ In id (exclude p)) /\
    prevIdRef = currentId p /\
    d = directionOf (hideOn p) in
  (hidden -> translateY p prevIdRef d = range_to (translateRange p)) /\
  (~ hidden -> translateY p prevIdRef d = range_from (translateRange p)).
Proof.
  cbn zeta. unfold translateY, idChanged.
  pose proof (isExcluded_iff p) as Hex.
  pose proof (idNeqb_false prevIdRef (currentId p)) as Hid.
  destruct (isExcluded p).
  - split; [|reflexivity]. intros [Hn _]. exfalso. apply Hn, Hex. reflexivity.
  - destruct (idNeqb prevIdRef (currentId p)).
    + split; [|reflexivity]. intros (_ & Hp & _).
      apply Hid in Hp. discriminate.
    + destruct (Direction_eqb_spec d (directionOf (hideOn p))) as [Hd|Hd].
      * split; [reflexivity|]. intros Hn. exfalso. apply Hn.
        repeat split; [|now apply Hid|exact Hd].
        intros H. apply Hex in H. discriminate.
      * split; [|reflexivity]. intros (_ & _ & Hd'). contradiction.
Qed.

Lemma tab_hidden_iff_witness :
  let p := BottomTab.mkProps hideOnDown (mkRange 0 80)
             ["Home"%string; "Profile"%string] (Some "Feed"%string) in
  translateY p (Some "Feed"%string) down = 80 /\
  translateY (BottomTab.mkProps hideOnDown (mkRange 0 80)
                ["Home"%string; "Profile"%string] (Some "Home"%string))
             (Some "Home"%string) down = 0.
Proof.
  intros p. split.
  - apply (proj1 (tab_hidden_iff p (Some "Feed"%string) down)).
    repeat split. intros (id & Hid & Hin). injection Hid as <-.
    cbn in Hin. intuition discriminate.
  - apply (proj2 (tab_hidden_iff
             (BottomTab.mkProps hideOnDown (mkRange 0 80)
                ["Home"%string; "Profile"%string] (Some "Home"%string))
             (Some "Home"%string) down)).
    intros (Hn & _). apply Hn. exists "Home"%string. cbn. auto.
Defined.

(** X20.  The provider drives the tab bar: in every reachable state that
    is not scrolling (before the first sample, after the idle timer) the
    bar is at [translateRange.from] whatever its props; and a bar with
    [hideOn = "down"] on a route that is neither excluded nor just changed
    is at [translateRange.to] right after any sample whose total delta is
    positive. *)
Theorem provider_drives_tab s p prevIdRef :
  reachable s ->
  (isScrolling s = false ->
   translateY p prevIdRef (directionShared s)
   = range_from (translateRange p)) /\
  (forall e,
     hideOn p = hideOnDown ->
     isExcluded p = false ->
     prevIdRef = currentId p ->
     0 < clampedY e - scrollStartYRef (onScroll e s) ->
     translateY p prevIdRef (directionShared (onScroll e s))
     = range_to (translateRange p)).
Proof.
  intros Hr. split.
  - intros Hs. destruct (Settled_reachable s Hr) as (_ & _ & Hi).
    rewrite (Hi Hs). apply (proj2 (tab_hidden_iff p prevIdRef idle)).
    intros (_ & _ & H). symmetry in H. exact (idle_is_no_hideOn _ H).
  - intros e Hh Hex Hp Hpos.
    assert (Hd : directionShared (onScroll e s) = down).
    { rewrite directionShared_onScroll.
      destruct (newDirection_cases
                  (clampedY e - scrollStartYRef (onScroll e s))
                  (thresholdRef s)) as (Hdn & _).
      now rewrite Hdn. }
    rewrite Hd. apply (proj1 (tab_hidden_iff p prevIdRef down)).
    repeat split; [|exact Hp|now rewrite Hh].
    intros H. apply isExcluded_iff in H. congruence.
Qed.

Lemma provider_drives_tab_witness :
  translateY (BottomTab.mkProps hideOnDown (mkRange 0 80) [] None) None
    (directionShared idledOut) = 0.
Proof.
  apply (provider_drives_tab idledOut
           (BottomTab.mkProps hideOnDown (mkRange 0 80) [] None) None).
  - exists 8, true,
      [Scroll (mkEvent 0 10000 800); Scroll (mkEvent 50 10000 800);
       TimerFires 2].
    reflexivity.
  - vm_compute. reflexivity.
Defined.

End Tab.
